(** * NIFTY 50 quant dashboard: the analytics functions of [app23.py]

    A shallow embedding of the cached helper functions of the dashboard
    ([calculate_returns], [momentum_strategy], [performance_metrics],
    [rolling_var], [monte_carlo]) together with the pandas / numpy
    operations they call, and the properties of the specification that
    concern them.

    Numbers.  A pandas float is modelled by [fval]: a rational, one of the
    two infinities, or NaN.  Arithmetic on finite values is exact (no
    rounding) and results are kept in lowest terms; the special values
    follow IEEE 754 (x/0 is an infinity, 0/0 and inf-inf are NaN, every
    comparison with NaN is false).  The sign of zero is not represented.
    The elementary functions [np.sqrt] and [**] have irrational results and
    are parameters of the development. *)

From Stdlib Require Import QArith Qround Lqa Sorted.
From stdpp Require Import gmap strings list.

(** ** Floating values *)

Inductive fval : Type :=
  | NaN
  | NInf
  | PInf
  | Fin (q : Q).

Global Instance fval_inhabited : Inhabited fval := populate NaN.

Definition of_Z (z : Z) : fval := Fin (inject_Z z).
Definition of_nat (n : nat) : fval := of_Z (Z.of_nat n).

Definition isnan (x : fval) : bool :=
  match x with NaN => true | _ => false end.

Definition notna (x : fval) : bool := negb (isnan x).

Definition isfinite (x : fval) : bool :=
  match x with Fin _ => true | _ => false end.

Definition fneg (x : fval) : fval :=
  match x with
  | NaN => NaN
  | NInf => PInf
  | PInf => NInf
  | Fin q => Fin (Qred (- q))
  end.

Definition fadd (x y : fval) : fval :=
  match x, y with
  | NaN, _ | _, NaN => NaN
  | PInf, NInf | NInf, PInf => NaN
  | PInf, _ | _, PInf => PInf
  | NInf, _ | _, NInf => NInf
  | Fin a, Fin b => Fin (Qred (a + b))
  end.

Definition fsub (x y : fval) : fval :=
  match x, y with
  | NaN, _ | _, NaN => NaN
  | PInf, PInf | NInf, NInf => NaN
  | PInf, _ | _, NInf => PInf
  | NInf, _ | _, PInf => NInf
  | Fin a, Fin b => Fin (Qred (a - b))
  end.

(** The infinity of the sign of [s * q], NaN when [q] is zero. *)
Definition inf_times (s : bool) (q : Q) : fval :=
  match (q ?= 0)%Q with
  | Eq => NaN
  | Gt => if s then PInf else NInf
  | Lt => if s then NInf else PInf
  end.

Definition fmul (x y : fval) : fval :=
  match x, y with
  | NaN, _ | _, NaN => NaN
  | PInf, PInf | NInf, NInf => PInf
  | PInf, NInf | NInf, PInf => NInf
  | PInf, Fin q | Fin q, PInf => inf_times true q
  | NInf, Fin q | Fin q, NInf => inf_times false q
  | Fin a, Fin b => Fin (Qred (a * b))
  end.

Definition fdiv (x y : fval) : fval :=
  match x, y with
  | NaN, _ | _, NaN => NaN
  | (PInf | NInf), (PInf | NInf) => NaN
  | PInf, Fin q => if Qle_bool 0 q then PInf else NInf
  | NInf, Fin q => if Qle_bool 0 q then NInf else PInf
  | Fin _, (PInf | NInf) => Fin 0
  | Fin a, Fin b =>
      if Qeq_bool b 0 then inf_times true a else Fin (Qred (a / b))
  end.

Definition flt (x y : fval) : bool :=
  match x, y with
  | NaN, _ | _, NaN => false
  | _, NInf => false
  | NInf, _ => true
  | PInf, _ => false
  | Fin _, PInf => true
  | Fin a, Fin b => match (a ?= b)%Q with Lt => true | _ => false end
  end.

Definition fgt (x y : fval) : bool := flt y x.

Definition fle (x y : fval) : bool :=
  match x, y with
  | NaN, _ | _, NaN => false
  | NInf, _ => true
  | _, PInf => true
  | _, NInf => false
  | PInf, _ => false
  | Fin a, Fin b => Qle_bool a b
  end.

(** [np.maximum]: the larger operand, NaN when either operand is NaN. *)
Definition fmaximum (x y : fval) : fval :=
  if isnan x then x else if isnan y then y else if fle y x then x else y.

Definition fminimum (x y : fval) : fval :=
  if isnan x then x else if isnan y then y else if fle x y then x else y.

(** ** numpy elementary functions

    [np.sqrt] and the float power [**] are library code with irrational
    results; the development is parametric in them. *)

Class Numpy : Type := {
  np_sqrt : fval → fval;
  np_power : fval → fval → fval;
}.

(** ** Python exceptions *)

Inductive exn : Type :=
  | KeyError (key : string)
  | ZeroDivisionError
  | ValueError (msg : string).

Inductive result (A : Type) : Type :=
  | Ok (a : A)
  | Raise (e : exn).
Global Arguments Ok {A} a.
Global Arguments Raise {A} e.

Global Instance result_ret : MRet result := λ A a, Ok a.
Global Instance result_bind : MBind result := λ A B f m,
  match m with Ok a => f a | Raise e => Raise e end.

(** Python's [a / b] on integers. *)
Definition py_truediv (a b : nat) : result fval :=
  if decide (b = 0) then Raise ZeroDivisionError
  else Ok (fdiv (of_nat a) (of_nat b)).

(** ** pandas Series: a column of floating values *)

Abbreviation Series := (list fval).

(** [s.shift(1)] *)
Definition shift (s : Series) : Series := take (length s) (NaN :: s).

(** [s.fillna(method="pad")]: a missing entry takes the last value seen
    before it; leading missing entries stay missing. *)
Fixpoint ffill_from (last : fval) (s : Series) : Series :=
  match s with
  | [] => []
  | x :: s' =>
      let y := if isnan x then last else x in
      y :: ffill_from y s'
  end.

Definition ffill (s : Series) : Series := ffill_from NaN s.

(** [s.pct_change()]: with the default [fill_method="pad"] of the pandas
    releases the dashboard was written for, the series is forward-filled
    and the result is [filled / filled.shift(1) - 1]. *)
Definition pct_change (s : Series) : Series :=
  let filled := ffill s in
  zip_with (λ x p, fsub (fdiv x p) (Fin 1)) filled (shift filled).

(** [s.dropna()] *)
Definition dropna (s : Series) : Series := List.filter notna s.

Definition fsum (s : Series) : fval := foldl fadd (Fin 0) s.
Definition fprod (s : Series) : fval := foldl fmul (Fin 1) s.

(** [s.prod()], [s.mean()], [s.min()], [s.std()] skip NaN. *)
Definition pd_prod (s : Series) : fval := fprod (dropna s).

Definition pd_mean (s : Series) : fval :=
  let v := dropna s in fdiv (fsum v) (of_nat (length v)).

Definition pd_min (s : Series) : fval :=
  match dropna s with
  | [] => NaN
  | x :: v => foldl fminimum x v
  end.

(** Sample variance and standard deviation, [ddof = 1]: NaN with fewer than
    two observations. *)
Definition pd_var (s : Series) : fval :=
  let v := dropna s in
  let n := length v in
  if decide (n ≤ 1) then NaN
  else
    let avg := fdiv (fsum v) (of_nat n) in
    fdiv (fsum (map (λ x, let d := fsub avg x in fmul d d) v)) (of_nat (n - 1)).

Definition pd_std `{Numpy} (s : Series) : fval :=
  if decide (length (dropna s) ≤ 1) then NaN else np_sqrt (pd_var s).

(** [np.cumprod], [np.maximum.accumulate]: a running fold that starts at the
    first element. *)
Fixpoint accumulate_from (op : fval → fval → fval) (acc : fval) (s : Series)
  : Series :=
  match s with
  | [] => []
  | x :: s' => let a := op acc x in a :: accumulate_from op a s'
  end.

Definition accumulate (op : fval → fval → fval) (s : Series) : Series :=
  match s with
  | [] => []
  | x :: s' => x :: accumulate_from op x s'
  end.

Definition np_cumprod : Series → Series := accumulate fmul.

(** pandas' accumulations skip NaN: missing entries are replaced by the
    neutral element [fill], the numpy accumulation runs, and the missing
    positions are set back to NaN. *)
Definition na_accum (op : fval → fval → fval) (fill : fval) (s : Series)
  : Series :=
  let vals := map (λ x, if isnan x then fill else x) s in
  let res := accumulate op vals in
  zip_with (λ x r, if isnan x then NaN else r) s res.

Definition cumprod : Series → Series := na_accum fmul (Fin 1).
Definition cummax : Series → Series := na_accum fmaximum NInf.

(** [s.rolling(w)]: the trailing window ending at row [i]; with the default
    [min_periods = w] the statistic is NaN unless the window holds [w]
    observations.  pandas turns the infinities of the series into NaN
    before it aggregates, so an observation is a finite value. *)
Definition trailing_window (w : nat) (s : Series) (i : nat) : Series :=
  take w (drop (S i - w) s).

Definition rolling (w : nat) (f : Series → fval) (s : Series) : Series :=
  map (λ i,
         if decide (w ≤ S i) then
           let win := trailing_window w s i in
           if forallb isfinite win then f win else NaN
         else NaN)
      (seq 0 (length s)).

Definition rolling_mean (w : nat) : Series → Series := rolling w pd_mean.
Definition rolling_std `{Numpy} (w : nat) : Series → Series := rolling w pd_std.

(** Insertion sort of a window of finite values. *)
Fixpoint insert_sorted (x : fval) (l : Series) : Series :=
  match l with
  | [] => [x]
  | y :: l' => if fle x y then x :: l else y :: insert_sorted x l'
  end.

Definition sort (l : Series) : Series := foldr insert_sorted [] l.

(** The quantile [q] of a window by linear interpolation between the two
    nearest order statistics. *)
Definition quantile_of (q : Q) (win : Series) : fval :=
  match length win with
  | 0 => NaN
  | S m =>
      let sl := sort win in
      let pos := (q * inject_Z (Z.of_nat m))%Q in
      let idx := Qfloor pos in
      let k := Z.to_nat idx in
      if Qeq_bool pos (inject_Z idx) then sl !!! k
      else
        let vlow := sl !!! k in
        let vhigh := sl !!! (S k) in
        fadd vlow (fmul (fsub vhigh vlow) (Fin (Qred (pos - inject_Z idx))))
  end.

(** [s.rolling(w).quantile(q)] raises when [q < 0] or [q > 1].  Both
    comparisons are false for a NaN [q], which is therefore let through:
    the interpolation position is then NaN and so is every entry of the
    result.  (At [q = 0] and [q = 1] pandas takes the minimum and the
    maximum of the window, the values of the interpolation there.) *)
Definition rolling_quantile (w : nat) (q : fval) (s : Series) : result Series :=
  if flt q (Fin 0) || fgt q (Fin 1)
  then Raise (ValueError "quantile value not in [0, 1]")
  else
    match q with
    | Fin q' => Ok (rolling w (quantile_of q') s)
    | _ => Ok (rolling w (λ _, NaN) s)
    end.

(** Operations between a Series and a scalar, and between two Series on the
    same index. *)
Definition radd (c : fval) (s : Series) : Series := map (fadd c) s.
Definition smul (s : Series) (c : fval) : Series := map (λ x, fmul x c) s.

(** [np.where(s > 0, 1, 0)] *)
Definition where_positive (s : Series) : Series :=
  map (λ x, if fgt x (Fin 0) then Fin 1 else Fin 0) s.

(** ** pandas DataFrame: an index and named columns *)

Record DataFrame : Type := {
  index : list Z;
  columns : gmap string Series;
}.

(** [df[c]] *)
Definition getitem (df : DataFrame) (c : string) : result Series :=
  match columns df !! c with
  | Some s => Ok s
  | None => Raise (KeyError c)
  end.

(** [df[c] = s] *)
Definition setitem (c : string) (s : Series) (df : DataFrame) : DataFrame :=
  {| index := index df; columns := <[c := s]> (columns df) |}.

(** A frame is well formed when every column has one entry per index label. *)
Definition well_formed (df : DataFrame) : Prop :=
  map_Forall (λ _ s, length s = length (index df)) (columns df).

Fixpoint select {A : Type} (mask : list bool) (l : list A) : list A :=
  match mask, l with
  | b :: mask', x :: l' => if b then x :: select mask' l' else select mask' l'
  | _, _ => []
  end.

Definition row_complete (cols : gmap string Series) (i : nat) : bool :=
  bool_decide (map_Forall (λ _ s, notna (s !!! i) = true) cols).

Definition row_mask (df : DataFrame) : list bool :=
  map (row_complete (columns df)) (seq 0 (length (index df))).

(** [df.dropna()]: the rows in which no column is NaN. *)
Definition dropna_rows (df : DataFrame) : DataFrame :=
  let mask := row_mask df in
  {| index := select mask (index df);
     columns := select mask <$> columns df |}.

(** The tuple returned by [performance_metrics]. *)
Record metrics : Type := {
  cagr : fval;
  vol : fval;
  sharpe : fval;
  sortino : fval;
  max_dd : fval;
  win_rate : fval;
}.

(** ** The dashboard's helper functions *)

Section helpers.
Context `{Numpy}.

Definition calculate_returns (data : DataFrame) : result DataFrame :=
  let df := data in
  price ← getitem df "Price";
  let df := setitem "Returns" (pct_change price) df in
  rate ← getitem df "Rate";
  let df := setitem "Rate_Change" (pct_change rate) df in
  returns ← getitem df "Returns";
  let df := setitem "Vol_21D"
              (smul (rolling_std 21 returns) (np_sqrt (of_Z 252))) df in
  returns ← getitem df "Returns";
  let df := setitem "Vol_63D"
              (smul (rolling_std 63 returns) (np_sqrt (of_Z 252))) df in
  returns ← getitem df "Returns";
  let df := setitem "Cumulative" (cumprod (radd (Fin 1) returns)) df in
  cumulative ← getitem df "Cumulative";
  let df := setitem "Peak" (cummax cumulative) df in
  cumulative ← getitem df "Cumulative";
  peak ← getitem df "Peak";
  let df := setitem "Drawdown"
              (zip_with fdiv (zip_with fsub cumulative peak) peak) df in
  mret (dropna_rows df).

(** The frame that [calculate_returns] has built when it reaches its
    [return]: the input with the seven derived columns. *)
Definition derived_frame (data : DataFrame) (price rate : Series)
  : DataFrame :=
  let returns := pct_change price in
  let cumulative := cumprod (radd (Fin 1) returns) in
  let peak := cummax cumulative in
  setitem "Drawdown" (zip_with fdiv (zip_with fsub cumulative peak) peak)
    (setitem "Peak" peak
       (setitem "Cumulative" cumulative
          (setitem "Vol_63D"
             (smul (rolling_std 63 returns) (np_sqrt (of_Z 252)))
             (setitem "Vol_21D"
                (smul (rolling_std 21 returns) (np_sqrt (of_Z 252)))
                (setitem "Rate_Change" (pct_change rate)
                   (setitem "Returns" returns data)))))).

Definition momentum_strategy (df : DataFrame) (lookback : nat)
  : result DataFrame :=
  let d := df in
  returns ← getitem d "Returns";
  let d := setitem "Momentum" (rolling_mean lookback returns) d in
  momentum ← getitem d "Momentum";
  let d := setitem "Signal" (where_positive momentum) d in
  signal ← getitem d "Signal";
  returns ← getitem d "Returns";
  let d := setitem "Strategy_Return" (zip_with fmul (shift signal) returns) d in
  mret d.

Definition performance_metrics (returns : Series) : result metrics :=
  let returns := dropna returns in
  exponent ← py_truediv 252 (length returns);
  let cagr := fsub (np_power (pd_prod (radd (Fin 1) returns)) exponent) (Fin 1) in
  let vol := fmul (pd_std returns) (np_sqrt (of_Z 252)) in
  let sharpe :=
    fmul (fdiv (pd_mean returns) (pd_std returns)) (np_sqrt (of_Z 252)) in
  let downside :=
    fmul (pd_std (List.filter (λ r, flt r (Fin 0)) returns))
         (np_sqrt (of_Z 252)) in
  let sortino :=
    if fgt downside (Fin 0)
    then fdiv (fmul (pd_mean returns) (of_Z 252)) downside
    else Fin 0 in
  let growth := cumprod (radd (Fin 1) returns) in
  let max_dd :=
    pd_min (map (λ x, fsub x (Fin 1)) (zip_with fdiv growth (cummax growth))) in
  let win_rate :=
    pd_mean (map (λ r, if fgt r (Fin 0) then Fin 1 else Fin 0) returns) in
  mret {| cagr := cagr; vol := vol; sharpe := sharpe; sortino := sortino;
          max_dd := max_dd; win_rate := win_rate |}.

Definition rolling_var (returns : Series) (window : nat) (confidence : fval)
  : result Series :=
  rolling_quantile window (fsub (Fin 1) confidence) returns.

End helpers.

(** ** numpy's global random generator

    The generator is library code: its state, the state that a seed
    produces and the draw of one standard normal deviate are parameters. *)

Class Generator : Type := {
  rng_state : Type;
  rng_seed : Z → rng_state;
  rng_gauss : rng_state → fval * rng_state;
}.

Section random.
Context `{Generator}.

(** Code that reads and updates the generator and may raise. *)
Definition Rand (A : Type) : Type := rng_state → result A * rng_state.

(** [np.random.seed(n)] *)
Definition random_seed (n : Z) : Rand unit := λ _, (Ok (), rng_seed n).

Fixpoint draw_row (loc scale : fval) (n : nat) (st : rng_state)
  : Series * rng_state :=
  match n with
  | 0 => ([], st)
  | S n' =>
      let '(g, st1) := rng_gauss st in
      let '(row, st2) := draw_row loc scale n' st1 in
      (fadd loc (fmul scale g) :: row, st2)
  end.

Fixpoint draw_rows (loc scale : fval) (rows cols : nat) (st : rng_state)
  : list Series * rng_state :=
  match rows with
  | 0 => ([], st)
  | S rows' =>
      let '(row, st1) := draw_row loc scale cols st in
      let '(rest, st2) := draw_rows loc scale rows' cols st1 in
      (row :: rest, st2)
  end.

(** [np.random.normal(loc, scale, (rows, cols))] rejects a negative
    scale. *)
Definition random_normal (loc scale : fval) (rows cols : nat)
  : Rand (list Series) := λ st,
  if flt scale (Fin 0) then (Raise (ValueError "scale < 0"), st)
  else let '(m, st') := draw_rows loc scale rows cols st in (Ok m, st').

Definition monte_carlo (mu sigma : fval) (sims : nat) : Rand (list Series) :=
  λ st,
  let '(_, st) := random_seed 42 st in
  match random_normal mu (fmul sigma (Fin 3)) sims 252 st with
  | (Ok sims_data, st) =>
      (Ok (map (λ row, map (fmul (Fin 100)) (np_cumprod (radd (Fin 1) row)))
               sims_data), st)
  | (Raise e, st) => (Raise e, st)
  end.

End random.

(** ** Instances used to run the functions on concrete data

    [np.sqrt] truncated to 64 fractional bits and [**] at natural-number
    exponents, where the power of a rational is a rational; a linear
    congruential generator stands for the random generator. *)

Definition sqrt_trunc (q : Q) : Q :=
  Qred (Z.sqrt (Qfloor (q * inject_Z (2 ^ 128))) # 2 ^ 64).

Definition sqrt_run (x : fval) : fval :=
  match x with
  | NaN | NInf => NaN
  | PInf => PInf
  | Fin q => if Qle_bool 0 q then Fin (sqrt_trunc q) else NaN
  end.

Definition power_run (x y : fval) : fval :=
  match x, y with
  | Fin a, Fin b =>
      if Qeq_bool b (inject_Z (Qfloor b)) && Qle_bool 0 b
      then Fin (Qred (a ^ Qfloor b))
      else NaN
  | _, _ => NaN
  end.

Definition numpy_run : Numpy :=
  {| np_sqrt := sqrt_run; np_power := power_run |}.

Definition generator_run : Generator :=
  {| rng_state := Z;
     rng_seed := λ n, n;
     rng_gauss := λ st,
       let st' := ((1103515245 * st + 12345) mod 2147483648)%Z in
       (Fin (Qred ((st' - 1073741824) # 1073741824)), st') |}.

(** A generator whose deviates cycle through 1, -1/2, 0, -1/2, 1; its
    state counts the draws. *)
Definition generator_cycle : Generator :=
  {| rng_state := Z;
     rng_seed := λ n, n;
     rng_gauss := λ st,
       (match (st mod 5)%Z with
        | 0%Z | 4%Z => Fin 1
        | 2%Z => Fin 0
        | _ => Fin (-1 # 2)
        end, (st + 1)%Z) |}.

(** ** Sample inputs

    A price series that cycles through 100, 125, 100, 80 and a rate series
    that alternates between 4 and 5, indexed by the day number; and the
    price series of the specification's example. *)

Definition sample_price (i : nat) : fval :=
  of_Z (match (i mod 4)%nat with 0 => 100 | 1 => 125 | 2 => 100 | _ => 80 end).

Definition sample_rate (i : nat) : fval :=
  of_Z (match (i mod 2)%nat with 0 => 4 | _ => 5 end).

Definition sample_data (n : nat) : DataFrame :=
  {| index := Z.of_nat <$> seq 0 n;
     columns := <["Price" := sample_price <$> seq 0 n]>
                  (<["Rate" := sample_rate <$> seq 0 n]> ∅) |}.

(** A series that starts at 100 and is quoted below zero from the next day
    on: the sample prices with their sign changed. *)
Definition negative_price (i : nat) : fval :=
  match i with
  | 0 => Fin 100
  | S _ => fneg (sample_price i)
  end.

Definition negative_data (n : nat) : DataFrame :=
  {| index := Z.of_nat <$> seq 0 n;
     columns := <["Price" := negative_price <$> seq 0 n]>
                  (<["Rate" := sample_rate <$> seq 0 n]> ∅) |}.

Definition example_prices : Series := [Fin 100; Fin 102; Fin 101; Fin 105].

Definition example_data : DataFrame :=
  {| index := [0; 1; 2; 3]%Z;
     columns := <["Price" := example_prices]>
                  (<["Rate" := [Fin 4; Fin 4; Fin 5; Fin 4]]> ∅) |}.

(** The table that [calculate_returns] produces from 66 days of the sample
    series: the three rows of days 63, 64 and 65. *)
Definition sample_table : DataFrame :=
  Eval vm_compute in
    match @calculate_returns numpy_run (sample_data 66) with
    | Ok tbl => tbl
    | Raise _ => {| index := []; columns := ∅ |}
    end.

(** ** Definitions used to state the properties *)

(** The position in [mask] of its [j]-th [true]: the row of the frame that
    becomes row [j] of [select mask]. *)
Fixpoint nth_true (mask : list bool) (j : nat) : option nat :=
  match mask with
  | [] => None
  | true :: mask' =>
      match j with
      | 0 => Some 0
      | S j' => S <$> nth_true mask' j'
      end
  | false :: mask' => S <$> nth_true mask' j
  end.

(** [insert_sorted] on the rationals of a window of finite values. *)
Fixpoint insert_q (x : Q) (l : list Q) : list Q :=
  match l with
  | [] => [x]
  | y :: l' => if Qle_bool x y then x :: l else y :: insert_q x l'
  end.

(** A finite, strictly positive value: what a price is. *)
Definition positive (x : fval) : bool :=
  match x with
  | Fin q => negb (Qle_bool q 0)
  | _ => false
  end.

(** ** The rest of the script

    *** The login gate *)

(** The values of the two widgets in one run of the script. *)
Record widgets : Type := {
  password_input : string;
  login_button : bool;
}.

(** How [authenticate] leaves a run: it returns, or [st.stop()] ends the
    run, or [st.experimental_rerun()] starts the script again. *)
Inductive control : Type :=
  | Continue
  | Stop
  | Rerun.

(** What the gate shows (the title without its pictograph). *)
Inductive element : Type :=
  | Title (text : string)
  | Success (text : string)
  | Error (text : string).

Definition authenticate (w : widgets) (session_state : gmap string bool)
  : control * gmap string bool * list element :=
  let session_state :=
    match session_state !! "authenticated" with
    | None => <["authenticated" := false]> session_state
    | Some _ => session_state
    end in
  if negb (session_state !!! "authenticated") then
    let shown := [Title "Login Required"] in
    let password := password_input w in
    if login_button w then
      if decide (password = "quant123") then
        (Rerun, <["authenticated" := true]> session_state,
         shown ++ [Success "Login successful"])
      else (Stop, session_state, shown ++ [Error "Invalid password"])
    else (Stop, session_state, shown)
  else (Continue, session_state, []).

(** *** Loading the two series *)

(** [yf.download(ticker, start, end)]: the data source is a parameter. *)
Class Yahoo : Type := {
  download : string → Z → Z → DataFrame;
}.

(** [df[[c1, ...]]]: the frame of the listed columns. *)
Fixpoint getcols (df : DataFrame) (cs : list string)
  : result (gmap string Series) :=
  match cs with
  | [] => mret ∅
  | c :: cs' =>
      s ← getitem df c;
      rest ← getcols df cs';
      mret (<[c := s]> rest)
  end.

Definition subframe (df : DataFrame) (cs : list string) : result DataFrame :=
  cols ← getcols df cs;
  mret {| index := index df; columns := cols |}.

(** [df.rename(columns = {old: new})] *)
Definition rename (old new : string) (df : DataFrame) : DataFrame :=
  match columns df !! old with
  | Some s =>
      {| index := index df; columns := <[new := s]> (delete old (columns df)) |}
  | None => df
  end.

(** The pairs of rows of an inner join on the index: every row of the left
    frame, in order, with every row of the right frame of the same label. *)
Definition join_rows (left right : list Z) : list (nat * nat) :=
  flat_map
    (λ i, map (λ j, (i, j))
              (List.filter (λ j, bool_decide (right !! j = left !! i))
                           (seq 0 (length right))))
    (seq 0 (length left)).

(** The name of a column in a merged frame: a name that both frames use
    gets the suffix of its side. *)
Definition merged_name (other : gmap string Series) (suffix c : string)
  : string :=
  match other !! c with
  | Some _ => c +:+ suffix
  | None => c
  end.

(** [left.merge(right, left_index=True, right_index=True)] *)
Definition merge (left right : DataFrame) : DataFrame :=
  let rows := join_rows (index left) (index right) in
  let lcols :=
    kmap (merged_name (columns right) "_x")
         ((λ s : Series, map (λ r : nat * nat, s !!! r.1) rows) <$> columns left) in
  let rcols :=
    kmap (merged_name (columns left) "_y")
         ((λ s : Series, map (λ r : nat * nat, s !!! r.2) rows) <$> columns right) in
  {| index := map (λ r : nat * nat, index left !!! r.1) rows;
     columns := lcols ∪ rcols |}.

Section loader.
Context `{Yahoo}.

Definition load_data (start end_ : Z) : result DataFrame :=
  let nifty := download "^NSEI" start end_ in
  let rates := download "^TNX" start end_ in
  prices ← subframe nifty ["Adj Close"];
  let prices := rename "Adj Close" "Price" prices in
  rates ← subframe rates ["Adj Close"];
  let rates := rename "Adj Close" "Rate" rates in
  mret (dropna_rows (merge prices rates)).

End loader.

(** *** Choosing the strategy and measuring it *)

Section dashboard.
Context `{Numpy}.

(** The table and the return stream of the chosen strategy. *)
Definition strategy_returns (strategy : string) (data : DataFrame)
    (lookback : nat) : result (DataFrame * Series) :=
  if decide (strategy = "Momentum") then
    data ← momentum_strategy data lookback;
    strat_returns ← getitem data "Strategy_Return";
    mret (data, strat_returns)
  else
    strat_returns ← getitem data "Returns";
    mret (data, strat_returns).

(** The metrics of the strategy and the benchmark's CAGR. *)
Definition strategy_performance (strategy : string) (data : DataFrame)
    (lookback : nat) : result (metrics * fval) :=
  chosen ← strategy_returns strategy data lookback;
  m ← performance_metrics chosen.2;
  returns ← getitem chosen.1 "Returns";
  b ← performance_metrics returns;
  mret (m, cagr b).

End dashboard.

(** ** Definitions used to state the further properties *)

(** The two series before the incomplete rows are dropped. *)
Definition joined (nifty rates : DataFrame) (p r : Series) : DataFrame :=
  let rows := join_rows (index nifty) (index rates) in
  {| index := map (λ rw : nat * nat, index nifty !!! rw.1) rows;
     columns :=
       <["Price" := map (λ rw : nat * nat, p !!! rw.1) rows]>
         ({["Rate" := map (λ rw : nat * nat, r !!! rw.2) rows]}) |}.

(** The number of strictly positive observations. *)
Definition count_positive (s : Series) : nat :=
  length (List.filter (λ r, fgt r (Fin 0)) s).

(** A finite value above -1: a return that leaves a positive value. *)
Definition above_minus_one (x : fval) : bool :=
  match x with
  | Fin q => negb (Qle_bool q (-1))
  | _ => false
  end.

(** A data source of two days, the second without a rate. *)
Definition yahoo_run : Yahoo :=
  {| download := λ ticker start end_,
       if decide (ticker = "^NSEI") then
         {| index := [start; start + 1]%Z;
            columns := <["Adj Close" := [Fin 100; Fin 102]]>
                         (<["Volume" := [Fin 5; Fin 6]]> ∅) |}
       else
         {| index := [start; start + 1]%Z;
            columns := <["Adj Close" := [Fin 4; NaN]]> ∅ |} |}.

(** * Properties

    ** Series and frames: basic facts *)

Lemma shift_length (s : Series) : length (shift s) = length s.
Proof. unfold shift. rewrite length_take. simpl. lia. Qed.

Lemma shift_lookup_0 (s : Series) x : s !! 0 = Some x → shift s !! 0 = Some NaN.
Proof. destruct s; [done|]. reflexivity. Qed.

Lemma shift_lookup_S (s : Series) i :
  S i < length s → shift s !! S i = s !! i.
Proof.
  intros Hi. unfold shift. rewrite lookup_take_lt by done. reflexivity.
Qed.

Lemma rolling_length w f (s : Series) : length (rolling w f s) = length s.
Proof. unfold rolling. by rewrite length_map, length_seq. Qed.

Lemma rolling_lookup w f (s : Series) i :
  i < length s →
  rolling w f s !! i =
    Some (if decide (w ≤ S i) then
            if forallb isfinite (trailing_window w s i)
            then f (trailing_window w s i) else NaN
          else NaN).
Proof.
  intros Hi. unfold rolling. rewrite list_lookup_fmap.
  rewrite lookup_seq_lt by done. reflexivity.
Qed.

Lemma rolling_short w f (s : Series) i :
  i < length s → S i < w → rolling w f s !! i = Some NaN.
Proof.
  intros Hi Hw. rewrite rolling_lookup by done.
  case_decide; [lia | done].
Qed.

Lemma where_positive_length s : length (where_positive s) = length s.
Proof. apply length_map. Qed.

Lemma getitem_Ok df c s : getitem df c = Ok s ↔ columns df !! c = Some s.
Proof.
  unfold getitem. destruct (columns df !! c); split; intros; by simplify_eq.
Qed.

Lemma getitem_setitem_eq c s df : getitem (setitem c s df) c = Ok s.
Proof. unfold getitem, setitem. simpl. by rewrite lookup_insert_eq. Qed.

Lemma getitem_setitem_ne c c' s df :
  c ≠ c' → getitem (setitem c s df) c' = getitem df c'.
Proof. intros. unfold getitem, setitem. simpl. by rewrite lookup_insert_ne. Qed.

Lemma bind_Ok {A B} (m : result A) (f : A → result B) b :
  m ≫= f = Ok b ↔ ∃ a, m = Ok a ∧ f a = Ok b.
Proof.
  destruct m; simpl; split.
  - eauto.
  - by intros (? & [= ->] & ?).
  - done.
  - by intros (? & ? & ?).
Qed.

Ltac frame_lookup :=
  repeat (first [ rewrite getitem_setitem_eq
                | rewrite getitem_setitem_ne by done ]; simpl).

Lemma momentum_strategy_unfold df lookback returns :
  columns df !! "Returns" = Some returns →
  momentum_strategy df lookback =
    Ok (setitem "Strategy_Return"
          (zip_with fmul (shift (where_positive (rolling_mean lookback returns)))
                    returns)
          (setitem "Signal" (where_positive (rolling_mean lookback returns))
             (setitem "Momentum" (rolling_mean lookback returns) df))).
Proof.
  intros Hr. apply getitem_Ok in Hr. unfold momentum_strategy.
  rewrite Hr. simpl. frame_lookup. rewrite Hr. reflexivity.
Qed.

Lemma momentum_strategy_Ok df lookback out :
  momentum_strategy df lookback = Ok out →
  ∃ returns, columns df !! "Returns" = Some returns.
Proof.
  unfold momentum_strategy. intros (returns & Hr & _)%bind_Ok.
  exists returns. by apply getitem_Ok.
Qed.

(** C1: in the table of the momentum overlay, the strategy return of every
    row after the first is the position (Signal) computed at the previous
    row times the simple return of the row itself; the position is the
    signal of the rolling mean, and the value at row [S i] is determined by
    the position at row [i] alone, never by the position at row [S i]. *)
Theorem momentum_strategy_one_period_lag df lookback returns :
  columns df !! "Returns" = Some returns →
  ∃ out signal strat,
    momentum_strategy df lookback = Ok out ∧
    columns out !! "Returns" = Some returns ∧
    columns out !! "Signal" = Some signal ∧
    signal = where_positive (rolling_mean lookback returns) ∧
    columns out !! "Strategy_Return" = Some strat ∧
    ∀ i r, returns !! S i = Some r →
      ∃ position, signal !! i = Some position ∧
                  strat !! S i = Some (fmul position r).
Proof.
  intros Hr. eexists _, _, _. split; [by apply momentum_strategy_unfold|].
  simpl. rewrite lookup_insert_eq.
  do 3 (rewrite lookup_insert_ne by done). rewrite Hr.
  rewrite lookup_insert_ne by done. rewrite lookup_insert_eq.
  do 4 (split; [reflexivity|]).
  intros i r Hi.
  set (signal := where_positive (rolling_mean lookback returns)).
  assert (Hlen : length signal = length returns).
  { unfold signal, rolling_mean. by rewrite where_positive_length, rolling_length. }
  pose proof (lookup_lt_Some _ _ _ Hi) as Hlt.
  destruct (lookup_lt_is_Some_2 signal i) as [p Hp]; [lia|].
  exists p. split; [done|].
  rewrite lookup_zip_with. rewrite shift_lookup_S by lia.
  rewrite Hp. simpl. by rewrite Hi.
Qed.

(** The lag at the sample table: the strategy return of its third row is
    the position of its second row times the return 1/4 of the third. *)
Lemma momentum_strategy_one_period_lag_witness :
  ∃ out signal strat,
    momentum_strategy sample_table 60 = Ok out ∧
    columns out !! "Signal" = Some signal ∧
    columns out !! "Strategy_Return" = Some strat ∧
    ∃ position, signal !! 1 = Some position ∧
                strat !! 2 = Some (fmul position (Fin (1 # 4))).
Proof.
  destruct (momentum_strategy_one_period_lag sample_table 60 _ eq_refl)
    as (out & signal & strat & Hout & _ & Hsignal & _ & Hstrat & Hlag).
  exists out, signal, strat. do 3 (split; [done|]).
  apply (Hlag 1). reflexivity.
Defined.

(** C9: [momentum_strategy] preserves the frame it is given: the output
    has the same index (the same rows), every column other than Momentum,
    Signal and Strategy_Return is the input's column unchanged, the output's
    columns are the input's plus exactly those three, each of them as long
    as the Returns column, and a well-formed frame stays well formed. *)
Theorem momentum_strategy_frame df lookback out :
  momentum_strategy df lookback = Ok out →
  index out = index df ∧
  (∀ c, c ∉ ["Momentum"; "Signal"; "Strategy_Return"] →
        columns out !! c = columns df !! c) ∧
  dom (columns out) =
    dom (columns df) ∪ {["Momentum"; "Signal"; "Strategy_Return"]} ∧
  (∃ returns, columns df !! "Returns" = Some returns ∧
     ∀ c s, c ∈ ["Momentum"; "Signal"; "Strategy_Return"] →
            columns out !! c = Some s → length s = length returns) ∧
  (well_formed df → well_formed out).
Proof.
  intros Hout.
  destruct (momentum_strategy_Ok _ _ _ Hout) as [returns Hr].
  rewrite (momentum_strategy_unfold _ _ _ Hr) in Hout.
  injection Hout as <-. simpl.
  assert (Hnew : ∀ c s,
    c ∈ ["Momentum"; "Signal"; "Strategy_Return"] →
    <["Strategy_Return":=zip_with fmul
        (shift (where_positive (rolling_mean lookback returns))) returns]>
      (<["Signal":=where_positive (rolling_mean lookback returns)]>
         (<["Momentum":=rolling_mean lookback returns]> (columns df))) !! c
      = Some s → length s = length returns).
  { intros c s Hc Hs.
    assert (Hm : length (rolling_mean lookback returns) = length returns)
      by apply rolling_length.
    repeat (apply elem_of_cons in Hc as [-> | Hc]);
      [ | | | by apply elem_of_nil in Hc ].
    - do 2 (rewrite lookup_insert_ne in Hs by done).
      rewrite lookup_insert_eq in Hs. by simplify_eq.
    - rewrite lookup_insert_ne in Hs by done.
      rewrite lookup_insert_eq in Hs. simplify_eq.
      by rewrite where_positive_length.
    - rewrite lookup_insert_eq in Hs. simplify_eq.
      rewrite length_zip_with, shift_length, where_positive_length. lia. }
  split; [reflexivity|]. split; [|split; [|split]].
  - intros c Hc.
    rewrite !lookup_insert_ne; [done | | | ];
      intros <-; apply Hc; repeat constructor.
  - rewrite !dom_insert_L. set_solver.
  - exists returns. split; [done|]. exact Hnew.
  - unfold well_formed. simpl. intros Hwf c s Hs.
    destruct (decide (c ∈ ["Momentum"; "Signal"; "Strategy_Return"])) as [Hc|Hc].
    + rewrite (Hnew c s Hc Hs). exact (Hwf _ _ Hr).
    + rewrite !lookup_insert_ne in Hs; [exact (Hwf _ _ Hs) | | | ];
        intros <-; apply Hc; repeat constructor.
Qed.

(** The frame property at the sample table with a lookback of 60 days. *)
Lemma momentum_strategy_frame_witness :
  ∃ out, momentum_strategy sample_table 60 = Ok out ∧
         index out = index sample_table.
Proof.
  eexists. split; [reflexivity|].
  exact (proj1 (momentum_strategy_frame sample_table 60 _ eq_refl)).
Defined.

Lemma dropna_cons_nan s : dropna (NaN :: s) = dropna s.
Proof. reflexivity. Qed.

(** C6 as stated fails: on the three-row sample table the overlay returns
    all three rows; row 0 is kept with an undefined strategy return and the
    rows without 60 days of history are kept with an undefined momentum. *)
Lemma momentum_strategy_keeps_undefined_rows :
  index sample_table = [63; 64; 65]%Z ∧
  ∃ out,
    momentum_strategy sample_table 60 = Ok out ∧
    index out = [63; 64; 65]%Z ∧
    columns out !! "Momentum" = Some [NaN; NaN; NaN] ∧
    columns out !! "Strategy_Return" = Some [NaN; Fin 0; Fin 0].
Proof.
  split; [reflexivity|]. eexists. split; [reflexivity|].
  split; [reflexivity|]. split; vm_compute; reflexivity.
Qed.

Section overlay.
Context `{Numpy}.

(** C6, amended: the overlay's output retains every input row. Row 0 is
    kept with an undefined (NaN) strategy return, and every row without a
    full lookback window is kept with an undefined (NaN) momentum and
    position 0. The undefined strategy return is discarded only by
    [performance_metrics], which drops NaN observations from the stream it
    is given: row 0 has no influence on the metrics. *)
Theorem momentum_strategy_retains_rows df lookback returns :
  columns df !! "Returns" = Some returns →
  ∃ out momentum signal strat,
    momentum_strategy df lookback = Ok out ∧
    index out = index df ∧
    columns out !! "Momentum" = Some momentum ∧
    columns out !! "Signal" = Some signal ∧
    columns out !! "Strategy_Return" = Some strat ∧
    length strat = length returns ∧
    (0 < length returns → strat !! 0 = Some NaN) ∧
    (∀ i, i < length returns → S i < lookback →
          momentum !! i = Some NaN ∧ signal !! i = Some (Fin 0)) ∧
    performance_metrics strat = performance_metrics (drop 1 strat).
Proof.
  intros Hr. eexists _, _, _, _.
  split; [by apply momentum_strategy_unfold|]. simpl.
  split; [reflexivity|].
  split; [by rewrite !lookup_insert_ne, lookup_insert_eq by done|].
  split; [by rewrite lookup_insert_ne, lookup_insert_eq by done|].
  split; [by rewrite lookup_insert_eq|].
  set (momentum := rolling_mean lookback returns).
  assert (Hm : length momentum = length returns) by apply rolling_length.
  assert (Hlen : length (zip_with fmul (shift (where_positive momentum)) returns)
                 = length returns).
  { rewrite length_zip_with, shift_length, where_positive_length. lia. }
  assert (H0 : 0 < length returns →
    zip_with fmul (shift (where_positive momentum)) returns !! 0 = Some NaN).
  { intros Hpos. destruct returns as [|r returns]; [simpl in Hpos; lia|].
    destruct momentum as [|m momentum]; [done|]. reflexivity. }
  split; [done|]. split; [done|]. split.
  - intros i Hi Hw.
    assert (Hmi : momentum !! i = Some NaN) by by apply rolling_short.
    split; [done|]. unfold where_positive.
    by rewrite list_lookup_fmap, Hmi.
  - destruct returns as [|r returns]; [by destruct momentum|].
    specialize (H0 ltac:(simpl; lia)).
    destruct (zip_with fmul (shift (where_positive momentum)) (r :: returns))
      as [|x strat]; [done|].
    injection H0 as ->. unfold performance_metrics.
    by rewrite dropna_cons_nan.
Qed.

End overlay.

(** The retention property at the sample table with a lookback of 60. *)
Lemma momentum_strategy_retains_rows_witness :
  columns sample_table !! "Returns" = Some [Fin (-1 # 5); Fin (1 # 4); Fin (1 # 4)] ∧
  ∃ out, momentum_strategy sample_table 60 = Ok out ∧
         index out = index sample_table.
Proof.
  split; [reflexivity|].
  destruct (@momentum_strategy_retains_rows numpy_run sample_table 60 _ eq_refl)
    as (out & _ & _ & _ & Hout & Hindex & _).
  by exists out.
Defined.

Lemma dropna_length_le s : length (dropna s) ≤ length s.
Proof. induction s as [|x s IH]; simpl; [lia|]. destruct (notna x); simpl; lia. Qed.

Lemma dropna_idemp s : dropna (dropna s) = dropna s.
Proof.
  induction s as [|x s IH]; [done|]. simpl.
  destruct (notna x) eqn:Hx; [|done]. simpl. by rewrite Hx, IH.
Qed.

Lemma py_truediv_zero a : py_truediv a 0 = Raise ZeroDivisionError.
Proof. reflexivity. Qed.

Lemma py_truediv_pos a b :
  0 < b → py_truediv a b = Ok (fdiv (of_nat a) (of_nat b)).
Proof. intros Hb. unfold py_truediv. case_decide; [lia | done]. Qed.

Lemma fmul_nan_l x : fmul NaN x = NaN.
Proof. reflexivity. Qed.

Lemma inf_times_not_finite s q : isfinite (inf_times s q) = false.
Proof. unfold inf_times. by destruct (q ?= 0)%Q, s. Qed.

Lemma fmul_not_finite_l x y : isfinite x = false → isfinite (fmul x y) = false.
Proof.
  destruct x, y; simpl; try done; intros _; apply inf_times_not_finite.
Qed.

Lemma fdiv_zero_not_finite x q : (q == 0)%Q → isfinite (fdiv x (Fin q)) = false.
Proof.
  intros Hq. destruct x; simpl; try done.
  - by destruct (Qle_bool 0 q).
  - by destruct (Qle_bool 0 q).
  - apply Qeq_bool_iff in Hq. rewrite Hq. apply inf_times_not_finite.
Qed.

Section metrics.
Context `{Numpy}.

Lemma pd_std_short s : length s ≤ 1 → pd_std s = NaN.
Proof.
  intros Hs. unfold pd_std. pose proof (dropna_length_le s).
  case_decide; [done | lia].
Qed.

Lemma performance_metrics_Ok s :
  dropna s ≠ [] →
  ∃ m, performance_metrics s = Ok m ∧
    sharpe m = fmul (fdiv (pd_mean (dropna s)) (pd_std (dropna s)))
                    (np_sqrt (of_Z 252)) ∧
    sortino m =
      (let downside :=
         fmul (pd_std (List.filter (λ r, flt r (Fin 0)) (dropna s)))
              (np_sqrt (of_Z 252)) in
       if fgt downside (Fin 0)
       then fdiv (fmul (pd_mean (dropna s)) (of_Z 252)) downside
       else Fin 0).
Proof.
  intros Hs. unfold performance_metrics.
  rewrite py_truediv_pos by (destruct (dropna s); [done | simpl; lia]).
  simpl. eexists. split; [reflexivity|]. done.
Qed.

Lemma performance_metrics_no_observation s :
  dropna s = [] → performance_metrics s = Raise ZeroDivisionError.
Proof. intros Hs. unfold performance_metrics. by rewrite Hs. Qed.

(** The only exception [performance_metrics] raises is the division by
    zero, and only on a stream without observations. *)
Lemma performance_metrics_Raise s e :
  performance_metrics s = Raise e → dropna s = [] ∧ e = ZeroDivisionError.
Proof.
  intros He. destruct (dropna s) as [|x v] eqn:Hs.
  - rewrite (performance_metrics_no_observation s Hs) in He.
    by injection He as <-.
  - destruct (performance_metrics_Ok s) as (m & Hm & _); [by rewrite Hs|].
    by rewrite Hm in He.
Qed.

(** C3, amended: on a return stream with no observation left after NaN
    removal, [performance_metrics] has no guard: it evaluates [252 / n] with
    [n = 0], which raises ZeroDivisionError, and that exception is its
    outcome; no metric is computed and no "insufficient data" value is
    returned. *)
Theorem performance_metrics_empty_stream s :
  dropna s = [] →
  py_truediv 252 (length (dropna s)) = Raise ZeroDivisionError ∧
  performance_metrics s = Raise ZeroDivisionError ∧
  ∀ m, performance_metrics s ≠ Ok m.
Proof.
  intros Hs. rewrite (performance_metrics_no_observation s Hs), Hs.
  repeat split. done.
Qed.

Lemma sharpe_zero_deviation s q :
  dropna s ≠ [] → pd_std (dropna s) = Fin q → (q == 0)%Q →
  ∃ m, performance_metrics s = Ok m ∧ isfinite (sharpe m) = false.
Proof.
  intros Hs Hstd Hq.
  destruct (performance_metrics_Ok s Hs) as (m & Hm & Hsharpe & _).
  exists m. split; [done|]. rewrite Hsharpe, Hstd.
  by apply fmul_not_finite_l, fdiv_zero_not_finite.
Qed.

(** C10: on a stream with at least one observation and at most one
    negative return (none, or exactly one), the downside deviation is
    undefined and [performance_metrics] returns a Sortino ratio of 0. *)
Theorem sortino_at_most_one_negative_return s :
  dropna s ≠ [] →
  length (List.filter (λ r, flt r (Fin 0)) (dropna s)) ≤ 1 →
  ∃ m, performance_metrics s = Ok m ∧ sortino m = Fin 0.
Proof.
  intros Hs Hneg.
  destruct (performance_metrics_Ok s Hs) as (m & Hm & _ & Hsortino).
  exists m. split; [done|]. rewrite Hsortino.
  by rewrite (pd_std_short _ Hneg).
Qed.

End metrics.

(** C3 as stated fails: on the empty stream the division [252 / 0] is
    performed and [performance_metrics] ends in ZeroDivisionError. *)
Lemma performance_metrics_divides_by_zero :
  py_truediv 252 (length (dropna [])) = Raise ZeroDivisionError ∧
  @performance_metrics numpy_run [] = Raise ZeroDivisionError.
Proof. split; reflexivity. Qed.

(** The empty-stream behaviour at the stream that holds one NaN. *)
Lemma performance_metrics_empty_stream_witness :
  dropna [NaN] = [] ∧
  @performance_metrics numpy_run [NaN] = Raise ZeroDivisionError.
Proof.
  split; [reflexivity|].
  exact (proj1 (proj2 (@performance_metrics_empty_stream numpy_run [NaN] eq_refl))).
Defined.

(** C4, the code at the failing inputs: on the constant zero-return stream
    every metric is 0 except the Sharpe ratio, which is NaN (0/0); on a
    constant non-zero stream the volatility is 0 and the Sharpe ratio is
    +infinity. The Sortino line guards its division, the Sharpe line does
    not. *)
Theorem sharpe_of_zero_returns :
  @performance_metrics numpy_run [Fin 0; Fin 0] =
    Ok {| cagr := Fin 0; vol := Fin 0; sharpe := NaN; sortino := Fin 0;
          max_dd := Fin 0; win_rate := Fin 0 |} ∧
  ∃ m, @performance_metrics numpy_run [Fin (1 # 2); Fin (1 # 2)] = Ok m ∧
       vol m = Fin 0 ∧ sharpe m = PInf.
Proof.
  split; [vm_compute; reflexivity|]. eexists. split; [reflexivity|].
  split; vm_compute; reflexivity.
Qed.

(** A stream with exactly one negative return. *)
Lemma sortino_at_most_one_negative_return_witness :
  ∃ m, @performance_metrics numpy_run
         [Fin (1 # 100); Fin (-1 # 100); Fin (3 # 100)] = Ok m ∧
       sortino m = Fin 0.
Proof.
  apply (@sortino_at_most_one_negative_return numpy_run).
  - done.
  - vm_compute. lia.
Defined.

(** ** Row selection *)

Lemma bind_lookup_nil {A} (o : option nat) : o ≫= (λ i, (@nil A) !! i) = None.
Proof. by destruct o. Qed.

Lemma select_lookup {A} (mask : list bool) (l : list A) j :
  select mask l !! j = nth_true mask j ≫= (λ i, l !! i).
Proof.
  revert l j. induction mask as [|b mask IH]; intros [|x l] j; simpl; try done.
  - by rewrite bind_lookup_nil.
  - destruct b.
    + destruct j as [|j]; [done|]. simpl. rewrite IH.
      by destruct (nth_true mask j).
    + rewrite IH. by destruct (nth_true mask j).
Qed.

Lemma nth_true_lookup mask j i : nth_true mask j = Some i → mask !! i = Some true.
Proof.
  revert j i. induction mask as [|b mask IH]; intros j i; simpl; [done|].
  destruct b.
  - destruct j as [|j]; [by intros [= <-]|].
    destruct (nth_true mask j) as [i'|] eqn:Hj; [|done].
    intros [= <-]. simpl. eauto.
  - destruct (nth_true mask j) as [i'|] eqn:Hj; [|done].
    intros [= <-]. simpl. eauto.
Qed.

Lemma nth_true_mono mask j1 j2 i1 i2 :
  j1 ≤ j2 → nth_true mask j1 = Some i1 → nth_true mask j2 = Some i2 → i1 ≤ i2.
Proof.
  revert j1 j2 i1 i2.
  induction mask as [|b mask IH]; intros j1 j2 i1 i2 Hle; simpl; [done|].
  destruct b.
  - destruct j1 as [|j1].
    + intros [= <-] _. lia.
    + destruct j2 as [|j2]; [lia|].
      destruct (nth_true mask j1) as [k1|] eqn:H1; [|done].
      destruct (nth_true mask j2) as [k2|] eqn:H2; [|done].
      intros [= <-] [= <-].
      pose proof (IH j1 j2 k1 k2 ltac:(lia) H1 H2). lia.
  - destruct (nth_true mask j1) as [k1|] eqn:H1; [|done].
    destruct (nth_true mask j2) as [k2|] eqn:H2; [|done].
    intros [= <-] [= <-].
    pose proof (IH j1 j2 k1 k2 Hle H1 H2). lia.
Qed.

Lemma nth_true_lt mask j1 j2 i1 i2 :
  j1 < j2 → nth_true mask j1 = Some i1 → nth_true mask j2 = Some i2 → i1 < i2.
Proof.
  revert j1 j2 i1 i2.
  induction mask as [|b mask IH]; intros j1 j2 i1 i2 Hlt; simpl; [done|].
  destruct b.
  - destruct j2 as [|j2]; [lia|].
    destruct (nth_true mask j2) as [k2|] eqn:H2; [|done].
    destruct j1 as [|j1].
    + intros [= <-] [= <-]. lia.
    + destruct (nth_true mask j1) as [k1|] eqn:H1; [|done].
      intros [= <-] [= <-].
      pose proof (IH j1 j2 k1 k2 ltac:(lia) H1 H2). lia.
  - destruct (nth_true mask j1) as [k1|] eqn:H1; [|done].
    destruct (nth_true mask j2) as [k2|] eqn:H2; [|done].
    intros [= <-] [= <-].
    pose proof (IH j1 j2 k1 k2 Hlt H1 H2). lia.
Qed.

Lemma select_length_eq {A B} mask (l : list A) (k : list B) :
  length l = length k → length (select mask l) = length (select mask k).
Proof.
  revert l k. induction mask as [|b mask IH]; intros [|x l] [|y k] Hlen;
    simpl in *; try done.
  destruct b; simpl; auto.
Qed.

Lemma select_sublist {A} mask (l : list A) : select mask l `sublist_of` l.
Proof.
  revert l. induction mask as [|b mask IH]; intros [|x l]; simpl;
    try apply sublist_nil_l.
  destruct b; [by apply sublist_skip | by apply sublist_cons].
Qed.

Lemma select_drop {A} mask (l : list A) n :
  (∀ i, i < n → mask !! i ≠ Some true) →
  select mask l = select (drop n mask) (drop n l).
Proof.
  revert mask l. induction n as [|n IH]; intros mask l Hn; [done|].
  destruct mask as [|b mask]; [by destruct (drop (S n) l)|].
  destruct l as [|x l]; [by destruct (drop (S n) (b :: mask))|].
  destruct b; [by destruct (Hn 0 ltac:(lia))|].
  simpl. apply IH. intros i Hi. apply (Hn (S i)). lia.
Qed.

Lemma lookup_total_notna (s : Series) i :
  notna (s !!! i) = true → ∃ x, s !! i = Some x ∧ notna x = true.
Proof.
  rewrite list_lookup_total_alt. destruct (s !! i) as [x|]; [eauto | done].
Qed.

Lemma row_mask_lookup df i b :
  row_mask df !! i = Some b →
  i < length (index df) ∧ b = row_complete (columns df) i.
Proof.
  unfold row_mask. rewrite list_lookup_fmap.
  destruct (seq 0 (length (index df)) !! i) as [k|] eqn:Hk; [|done].
  apply lookup_seq in Hk as [-> Hi]. simpl. by intros [= <-].
Qed.

Lemma row_mask_true df i c s :
  row_mask df !! i = Some true → columns df !! c = Some s →
  ∃ x, s !! i = Some x ∧ notna x = true.
Proof.
  intros [_ Hb]%row_mask_lookup Hc. apply lookup_total_notna.
  symmetry in Hb. apply bool_decide_eq_true in Hb. exact (Hb c s Hc).
Qed.

Lemma row_mask_false df i c s :
  columns df !! c = Some s → s !! i = Some NaN → row_mask df !! i ≠ Some true.
Proof.
  intros Hc Hi Hm.
  destruct (row_mask_true df i c s Hm Hc) as (x & Hx & Hn).
  rewrite Hi in Hx. by injection Hx as <-.
Qed.

Lemma dropna_rows_column df c s :
  columns (dropna_rows df) !! c = Some s ↔
  ∃ s0, columns df !! c = Some s0 ∧ s = select (row_mask df) s0.
Proof.
  unfold dropna_rows. simpl. rewrite lookup_fmap.
  destruct (columns df !! c) as [s0|]; simpl; split.
  - intros [= <-]. eauto.
  - by intros (? & [= <-] & ->).
  - done.
  - by intros (? & ? & ?).
Qed.

(** Row [j] of a frame after [dropna] is row [nth_true mask j] of the frame
    before. *)
Lemma dropna_rows_lookup df c s0 j :
  columns df !! c = Some s0 →
  ∃ s, columns (dropna_rows df) !! c = Some s ∧
       s !! j = nth_true (row_mask df) j ≫= (λ i, s0 !! i).
Proof.
  intros Hc. exists (select (row_mask df) s0). split.
  - apply dropna_rows_column. eauto.
  - apply select_lookup.
Qed.

(** ** Accumulations *)

Lemma accumulate_from_length op acc s :
  length (accumulate_from op acc s) = length s.
Proof. revert acc. induction s as [|x s IH]; intros acc; simpl; [done|]. by rewrite IH. Qed.

Lemma accumulate_from_lookup op acc s i :
  i < length s →
  accumulate_from op acc s !! i = Some (foldl op acc (take (S i) s)).
Proof.
  revert acc i. induction s as [|x s IH]; intros acc i Hi; simpl in *; [lia|].
  destruct i as [|i]; [by destruct s|]. simpl. apply IH. lia.
Qed.

Lemma fill_notna fill s :
  Forall (λ x, notna x = true) s → map (λ x, if isnan x then fill else x) s = s.
Proof.
  induction 1 as [|x s Hx _ IH]; [done|]. simpl. rewrite IH.
  unfold notna in Hx. by destruct (isnan x).
Qed.

Lemma mask_notna s r :
  Forall (λ x, notna x = true) s → length r = length s →
  zip_with (λ x y, if isnan x then NaN else y) s r = r.
Proof.
  intros Hs. revert r. induction Hs as [|x s Hx _ IH]; intros [|y r] Hlen;
    simpl in *; try done.
  rewrite IH by lia. unfold notna in Hx. by destruct (isnan x).
Qed.

(** An accumulation over a column whose only missing entry is the first. *)
Lemma na_accum_nan_head op fill s :
  Forall (λ x, notna x = true) s →
  na_accum op fill (NaN :: s) = NaN :: accumulate_from op fill s.
Proof.
  intros Hs. unfold na_accum. simpl. f_equal.
  rewrite (fill_notna _ _ Hs).
  apply mask_notna; [done | apply accumulate_from_length].
Qed.

(** ** Rational arithmetic behind the columns *)

Lemma positive_spec x : positive x = true ↔ ∃ q, x = Fin q ∧ (0 < q)%Q.
Proof.
  destruct x as [| | |q]; simpl; try (split; [done | by intros (? & ? & ?)]).
  rewrite negb_true_iff. split.
  - intros Hq. exists q. split; [done|].
    apply Qnot_le_lt. intros Hle. apply Qle_bool_iff in Hle. congruence.
  - intros (q' & [= <-] & Hq). apply not_true_is_false.
    intros Hle%Qle_bool_iff. lra.
Qed.

Lemma positive_prices s :
  forallb positive s = true → ∃ qs, s = Fin <$> qs ∧ Forall (λ q, (0 < q)%Q) qs.
Proof.
  induction s as [|x s IH]; simpl.
  - exists []. by split.
  - intros [Hx Hs]%andb_true_iff.
    apply positive_spec in Hx as (q & -> & Hq).
    destruct (IH Hs) as (qs & -> & Hqs). exists (q :: qs). split; [done|].
    by constructor.
Qed.

Lemma Qeq_bool_pos q : (0 < q)%Q → Qeq_bool q 0 = false.
Proof.
  intros Hq. apply not_true_is_false. intros Heq%Qeq_bool_iff. lra.
Qed.

Lemma Qdiv_pos a b : (0 < a)%Q → (0 < b)%Q → (0 < a / b)%Q.
Proof.
  intros Ha Hb. unfold Qdiv. apply Qmult_lt_0_compat; [done|].
  by apply Qinv_lt_0_compat.
Qed.

(** The growth factor of one period: [1 + (x / p - 1)]. *)
Lemma growth_factor x p :
  (0 < p)%Q →
  ∃ g, fadd (Fin 1) (fsub (fdiv (Fin x) (Fin p)) (Fin 1)) = Fin g ∧ (g == x / p)%Q.
Proof.
  intros Hp. simpl. rewrite (Qeq_bool_pos _ Hp). simpl.
  eexists. split; [reflexivity|]. rewrite !Qred_correct. ring.
Qed.

Lemma ffill_from_length last s : length (ffill_from last s) = length s.
Proof.
  revert last. induction s as [|x s IH]; intros last; simpl; [done|].
  by rewrite IH.
Qed.

(** Forward filling changes nothing in a series without missing values. *)
Lemma ffill_from_notna last s :
  Forall (λ x, notna x = true) s → ffill_from last s = s.
Proof.
  intros Hs. revert last. induction Hs as [|x s Hx _ IH]; intros last; [done|].
  simpl. destruct x; try done; by rewrite IH.
Qed.

Lemma zip_with_shift (g : fval → fval → fval) x s :
  zip_with g (x :: s) (shift (x :: s)) = g x NaN :: zip_with g s (x :: s).
Proof.
  unfold shift. simpl. f_equal.
  revert x. induction s as [|y s IH]; intros x; simpl; [done|].
  f_equal. apply IH.
Qed.

(** The first change is undefined, whatever the series holds. *)
Lemma pct_change_head x s : ∃ t, pct_change (x :: s) = NaN :: t.
Proof.
  unfold pct_change, ffill. cbn [ffill_from]. rewrite zip_with_shift.
  eexists. f_equal. by destruct x.
Qed.

Lemma pct_change_cons x s :
  Forall (λ y, notna y = true) (x :: s) →
  pct_change (x :: s) =
    NaN :: zip_with (λ y p, fsub (fdiv y p) (Fin 1)) s (x :: s).
Proof.
  intros Hs. unfold pct_change, ffill. rewrite (ffill_from_notna _ _ Hs).
  rewrite zip_with_shift. f_equal. by destruct x.
Qed.

(** Cumulative growth telescopes to the price relative to the first price. *)
Lemma cumulative_chain q0 qs prev a :
  (0 < q0)%Q → (0 < prev)%Q → (a == prev / q0)%Q →
  Forall (λ q, (0 < q)%Q) qs →
  ∃ cs,
    accumulate_from fmul (Fin a)
      (radd (Fin 1)
         (zip_with (λ y p, fsub (fdiv y p) (Fin 1))
                   (Fin <$> qs) (Fin prev :: (Fin <$> qs))))
    = Fin <$> cs ∧
    Forall2 (λ q c, (c == q / q0)%Q) qs cs.
Proof.
  intros Hq0 Hprev Ha Hqs. revert prev a Hprev Ha.
  induction Hqs as [|q qs Hq _ IH]; intros prev a Hprev Ha.
  - exists []. by split.
  - destruct (growth_factor q prev Hprev) as (g & Hg & Hgq).
    destruct (IH q (Qred (a * g)) Hq) as (cs & Hcs & Hall).
    { rewrite Qred_correct, Ha, Hgq. field. split; lra. }
    exists (Qred (a * g) :: cs). split.
    + rewrite !fmap_cons. cbn [zip_with radd map accumulate_from].
      unfold radd in Hcs. rewrite Hg. cbn [fmul]. by rewrite Hcs.
    + constructor; [|done]. rewrite Qred_correct, Ha, Hgq. field. split; lra.
Qed.

Lemma foldl_fmaximum a l :
  ∃ m, foldl fmaximum (Fin a) (Fin <$> l) = Fin m ∧
       (a <= m)%Q ∧ Forall (λ x, (x <= m)%Q) l ∧ (m = a ∨ m ∈ l).
Proof.
  revert a. induction l as [|x l IH]; intros a.
  - exists a. repeat split; [lra | constructor | by left].
  - cbn [fmap list_fmap foldl]. unfold fmaximum. cbn [isnan fle].
    destruct (Qle_bool x a) eqn:Hxa.
    + apply Qle_bool_iff in Hxa.
      destruct (IH a) as (m & Hm & Ham & Hall & Hin). exists m.
      repeat split; [done | done | constructor; [lra | done] |].
      destruct Hin; [by left | right; by right].
    + assert (a < x)%Q as Hlt.
      { apply Qnot_le_lt. intros Hle%Qle_bool_iff. congruence. }
      destruct (IH x) as (m & Hm & Hxm & Hall & Hin). exists m.
      repeat split; [done | lra | constructor; [lra | done] |].
      right. destruct Hin as [-> | Hin]; [by left | by right].
Qed.

(** The running maximum of a column of finite values. *)
Lemma running_max cs i c :
  cs !! i = Some c →
  ∃ m, accumulate_from fmaximum NInf (Fin <$> cs) !! i = Some (Fin m) ∧
       (∀ k ck, k ≤ i → cs !! k = Some ck → (ck <= m)%Q) ∧
       (∃ k, k ≤ i ∧ cs !! k = Some m).
Proof.
  intros Hi. pose proof (lookup_lt_Some _ _ _ Hi) as Hlt.
  rewrite accumulate_from_lookup by by rewrite length_fmap.
  destruct cs as [|c0 cs]; [done|]. cbn [fmap list_fmap take foldl].
  change (fmaximum NInf (Fin c0)) with (Fin c0).
  rewrite <- fmap_take.
  destruct (foldl_fmaximum c0 (take i cs)) as (m & Hm & Hc0 & Hall & Hin).
  exists m. split; [by rewrite Hm|]. split.
  - intros [|k] ck Hk Hck; [by injection Hck as <-|].
    simpl in Hck. rewrite Forall_lookup in Hall. apply (Hall k).
    rewrite lookup_take_lt by lia. done.
  - destruct Hin as [-> | Hin].
    + exists 0. split; [lia | done].
    + apply list_elem_of_lookup in Hin as [k Hk].
      apply lookup_take_Some in Hk as [Hk Hki].
      exists (S k). split; [lia | done].
Qed.

Lemma drawdown_value c m :
  (0 < m)%Q → (c <= m)%Q →
  ∃ d, fdiv (fsub (Fin c) (Fin m)) (Fin m) = Fin d ∧
       (d == c / m - 1)%Q ∧ (d <= 0)%Q ∧ ((d == 0)%Q ↔ (c == m)%Q).
Proof.
  intros Hm Hc. simpl. rewrite (Qeq_bool_pos _ Hm). simpl.
  eexists. split; [reflexivity|].
  assert (Hd : (Qred (Qred (c - m) / m) == c / m - 1)%Q).
  { rewrite !Qred_correct. field. lra. }
  assert (Hinv : (0 < / m)%Q) by by apply Qinv_lt_0_compat.
  assert (Hcm : (c / m * m == c)%Q) by (field; lra).
  split; [done|]. rewrite Hd. split; [|split].
  - assert (Hle : (0 <= (m - c) * / m)%Q)
      by (apply Qmult_le_0_compat; lra).
    assert (Hmm : (m * / m == 1)%Q) by (field; lra).
    unfold Qdiv. lra.
  - intros H0. rewrite <- Hcm. nra.
  - intros ->. field. lra.
Qed.

Lemma growth_factors prev qs :
  (0 < prev)%Q → Forall (λ q, (0 < q)%Q) qs →
  ∃ gs, radd (Fin 1)
          (zip_with (λ y p, fsub (fdiv y p) (Fin 1))
                    (Fin <$> qs) (Fin prev :: (Fin <$> qs)))
        = Fin <$> gs.
Proof.
  intros Hprev Hqs. revert prev Hprev.
  induction Hqs as [|q qs Hq _ IH]; intros prev Hprev.
  - by exists [].
  - destruct (growth_factor q prev Hprev) as (g & Hg & _).
    destruct (IH q Hq) as (gs & Hgs). exists (g :: gs).
    rewrite !fmap_cons. unfold radd in *. cbn [zip_with map].
    by rewrite Hg, Hgs.
Qed.

Lemma Forall_notna_Fin (qs : list Q) : Forall (λ x, notna x = true) (Fin <$> qs).
Proof. induction qs; by constructor. Qed.

Lemma cumulative_column q0 qs :
  (0 < q0)%Q → Forall (λ q, (0 < q)%Q) qs →
  ∃ cs, cumprod (radd (Fin 1) (pct_change (Fin <$> q0 :: qs))) = NaN :: (Fin <$> cs) ∧
        Forall2 (λ q c, (c == q / q0)%Q) qs cs.
Proof.
  intros Hq0 Hqs.
  rewrite fmap_cons, pct_change_cons by apply (Forall_notna_Fin (q0 :: qs)).
  change (radd (Fin 1) (NaN :: ?z)) with (NaN :: radd (Fin 1) z).
  unfold cumprod.
  destruct (growth_factors q0 qs Hq0 Hqs) as (gs & Hgs).
  destruct (cumulative_chain q0 qs q0 1 Hq0 Hq0) as (cs & Hcs & Hall);
    [field; lra | done |].
  exists cs. split; [|done].
  rewrite na_accum_nan_head; [by rewrite Hcs|].
  rewrite Hgs. apply Forall_notna_Fin.
Qed.

(** The derived columns of a positive price series, row by row. *)
Lemma derived_rows q0 qs :
  (0 < q0)%Q → Forall (λ q, (0 < q)%Q) qs →
  let cum := cumprod (radd (Fin 1) (pct_change (Fin <$> q0 :: qs))) in
  let peak := cummax cum in
  let dd := zip_with fdiv (zip_with fsub cum peak) peak in
  length cum = S (length qs) ∧ length peak = S (length qs) ∧
  length dd = S (length qs) ∧ cum !! 0 = Some NaN ∧
  ∀ i q, qs !! i = Some q →
    ∃ c m d, cum !! S i = Some (Fin c) ∧ peak !! S i = Some (Fin m) ∧
             dd !! S i = Some (Fin d) ∧
             (c == q / q0)%Q ∧ (d == c / m - 1)%Q ∧ (d <= 0)%Q ∧
             ((d == 0)%Q ↔ (c == m)%Q) ∧
             (∀ k ck, k ≤ i → cum !! S k = Some (Fin ck) → (ck <= m)%Q).
Proof.
  intros Hq0 Hqs.
  destruct (cumulative_column q0 qs Hq0 Hqs) as (cs & -> & Hall).
  pose proof (Forall2_length _ _ _ Hall) as Hlen.
  unfold cummax. rewrite na_accum_nan_head by apply Forall_notna_Fin.
  cbn zeta.
  assert (Hpl : length (accumulate_from fmaximum NInf (Fin <$> cs)) = length qs)
    by by rewrite accumulate_from_length, length_fmap.
  split; [simpl; rewrite length_fmap; lia|]. split; [simpl; lia|].
  split; [simpl; rewrite !length_zip_with, Hpl, length_fmap; lia|].
  split; [done|].
  intros i q Hi.
  destruct (Forall2_lookup_l _ _ _ _ _ Hall Hi) as (c & Hc & Hcq).
  destruct (running_max cs i c Hc) as (m & Hm & Hub & _).
  pose proof (Hub i c (le_n _) Hc) as Hcm.
  assert (0 < c)%Q as Hcpos.
  { rewrite Hcq. apply Qdiv_pos; [|done].
    rewrite Forall_lookup in Hqs. by apply (Hqs i). }
  destruct (drawdown_value c m) as (d & Hd & Hd1 & Hd2 & Hd3); [lra | done |].
  exists c, m, d.
  split; [simpl; by rewrite list_lookup_fmap, Hc|]. split; [done|].
  split.
  { rewrite !lookup_zip_with.
    change ((NaN :: ?l) !! S i) with (l !! i).
    rewrite list_lookup_fmap, Hc, Hm. by rewrite <- Hd. }
  do 4 (split; [done|]).
  intros k ck Hk Hck. simpl in Hck. rewrite list_lookup_fmap in Hck.
  destruct (cs !! k) as [ck'|] eqn:Hk'; [|done].
  injection Hck as <-. by apply (Hub k).
Qed.

(** The peak of a positive price series is the largest growth since the
    first return, and it is the growth of one of the rows up to there. *)
Lemma derived_peak q0 qs i m :
  (0 < q0)%Q → Forall (λ q, (0 < q)%Q) qs →
  cummax (cumprod (radd (Fin 1) (pct_change (Fin <$> q0 :: qs)))) !! S i
    = Some (Fin m) →
  (∀ k qk, k ≤ i → qs !! k = Some qk → (qk / q0 <= m)%Q) ∧
  (∃ k qk, k ≤ i ∧ qs !! k = Some qk ∧ (m == qk / q0)%Q).
Proof.
  intros Hq0 Hqs.
  destruct (cumulative_column q0 qs Hq0 Hqs) as (cs & -> & Hall).
  unfold cummax. rewrite na_accum_nan_head by apply Forall_notna_Fin.
  change ((NaN :: ?l) !! S i) with (l !! i). intros Hm.
  pose proof (lookup_lt_Some _ _ _ Hm) as Hlt.
  rewrite accumulate_from_length, length_fmap in Hlt.
  destruct (lookup_lt_is_Some_2 cs i Hlt) as [c Hc].
  destruct (running_max cs i c Hc) as (m' & Hm' & Hub & k & Hk & Hkm).
  rewrite Hm in Hm'. injection Hm' as <-. split.
  - intros k' qk Hk' Hqk.
    destruct (Forall2_lookup_l _ _ _ _ _ Hall Hqk) as (ck & Hck & Heq).
    rewrite <- Heq. by apply (Hub k').
  - destruct (Forall2_lookup_r _ _ _ _ _ Hall Hkm) as (qk & Hqk & Heq).
    exists k, qk. done.
Qed.

Section returns_transformer.
Context `{Numpy}.

Lemma calculate_returns_unfold data price rate :
  columns data !! "Price" = Some price → columns data !! "Rate" = Some rate →
  calculate_returns data = Ok (dropna_rows (derived_frame data price rate)).
Proof.
  intros Hp%getitem_Ok Hr%getitem_Ok. unfold calculate_returns.
  rewrite Hp. simpl. frame_lookup. rewrite Hr. simpl. frame_lookup.
  reflexivity.
Qed.

Lemma calculate_returns_Ok data out :
  calculate_returns data = Ok out →
  ∃ price rate, columns data !! "Price" = Some price ∧
                columns data !! "Rate" = Some rate ∧
                out = dropna_rows (derived_frame data price rate).
Proof.
  intros Hout. pose proof Hout as Hout'. unfold calculate_returns in Hout'.
  apply bind_Ok in Hout' as (price & Hp%getitem_Ok & Hout').
  apply bind_Ok in Hout' as (rate & Hr & _).
  rewrite getitem_setitem_ne in Hr by done. apply getitem_Ok in Hr.
  exists price, rate. split; [done|]. split; [done|].
  rewrite (calculate_returns_unfold _ _ _ Hp Hr) in Hout. by injection Hout.
Qed.

Lemma derived_frame_columns data price rate :
  let df := derived_frame data price rate in
  let cum := cumprod (radd (Fin 1) (pct_change price)) in
  columns df !! "Price" = columns data !! "Price" ∧
  columns df !! "Cumulative" = Some cum ∧
  columns df !! "Peak" = Some (cummax cum) ∧
  columns df !! "Drawdown" =
    Some (zip_with fdiv (zip_with fsub cum (cummax cum)) (cummax cum)) ∧
  columns df !! "Vol_63D" =
    Some (smul (rolling_std 63 (pct_change price)) (np_sqrt (of_Z 252))).
Proof.
  unfold derived_frame, setitem. simpl.
  repeat split;
    repeat first [ rewrite lookup_insert_eq | rewrite lookup_insert_ne by done ];
    reflexivity.
Qed.

End returns_transformer.

Lemma bind_lookup_Some {A} (o : option nat) (l : list A) x :
  o ≫= (λ i, l !! i) = Some x → ∃ i, o = Some i ∧ l !! i = Some x.
Proof. destruct o as [i|]; [eauto | done]. Qed.

Section returns_table.
Context `{Numpy}.

(** No 63-day volatility exists before row 63: the window of row 62 still
    holds the undefined return of row 0. *)
Lemma vol_63d_short price scale i x :
  i < 63 →
  smul (rolling_std 63 (pct_change price)) scale !! i = Some x → x = NaN.
Proof.
  intros Hi. unfold smul. rewrite list_lookup_fmap.
  destruct (rolling_std 63 (pct_change price) !! i) as [v|] eqn:Hv; [|done].
  intros [= <-]. pose proof (lookup_lt_Some _ _ _ Hv) as Hlt.
  unfold rolling_std in *. rewrite rolling_length in Hlt.
  rewrite rolling_lookup in Hv by done. injection Hv as <-.
  case_decide as Hw; [|done].
  assert (i = 62) as -> by lia.
  destruct price as [|p price]; [simpl in Hlt; lia|].
  destruct (pct_change_head p price) as [t ->]. reflexivity.
Qed.

(** A retained row is a row of the input after the first, and no row before
    row 63 is retained. *)
Lemma retained_row data rate q0 qs j i :
  (0 < q0)%Q → Forall (λ q, (0 < q)%Q) qs →
  nth_true (row_mask (derived_frame data (Fin <$> q0 :: qs) rate)) j = Some i →
  ∃ i' q, i = S i' ∧ qs !! i' = Some q.
Proof.
  intros Hq0 Hqs Hj%nth_true_lookup.
  destruct (derived_frame_columns data (Fin <$> q0 :: qs) rate)
    as (_ & Hcum & _).
  destruct (row_mask_true _ _ _ _ Hj Hcum) as (x & Hx & Hnan).
  destruct (derived_rows q0 qs Hq0 Hqs) as (Hlen & _ & _ & H0 & _).
  destruct i as [|i'].
  - rewrite H0 in Hx. by injection Hx as <-.
  - apply lookup_lt_Some in Hx. rewrite Hlen in Hx.
    destruct (lookup_lt_is_Some_2 qs i') as [q Hq]; [lia|]. eauto.
Qed.

Lemma row_mask_short data price rate i :
  i < 63 → row_mask (derived_frame data price rate) !! i ≠ Some true.
Proof.
  intros Hi Hm.
  destruct (derived_frame_columns data price rate) as (_ & _ & _ & _ & Hvol).
  destruct (row_mask_true _ _ _ _ Hm Hvol) as (x & Hx & Hnan).
  apply vol_63d_short in Hx; [|done]. by subst x.
Qed.

(** C5, amended: for a strictly positive price series, every row of the
    table that [calculate_returns] returns is a row of the input from row
    63 on (the rows keep their order), its cumulative growth is its price
    divided by the first price, and its drawdown is cumulative / peak - 1,
    which is <= 0 and is 0 exactly when the cumulative growth equals the
    peak.  The peak of a row is the running maximum of the growth over
    all input rows from the first return up to that row, the rows that are
    dropped from the table included: it is the growth price(k) / price(0)
    of one of the rows 1 <= k <= row, and no such row has a larger growth.
    In particular it bounds the cumulative growth of every row of the
    table up to that row. *)
Theorem drawdown_nonpositive data price out :
  columns data !! "Price" = Some price →
  forallb positive price = true →
  calculate_returns data = Ok out →
  ∃ (row : nat → nat) cumulative peak drawdown,
    columns out !! "Cumulative" = Some cumulative ∧
    columns out !! "Peak" = Some peak ∧
    columns out !! "Drawdown" = Some drawdown ∧
    length cumulative = length drawdown ∧
    length peak = length drawdown ∧
    (∀ k j, k < j → j < length drawdown → row k < row j) ∧
    ∀ j, j < length drawdown →
      ∃ p0 p c m d,
        63 ≤ row j ∧
        index out !! j = index data !! row j ∧
        price !! 0 = Some (Fin p0) ∧
        price !! row j = Some (Fin p) ∧
        cumulative !! j = Some (Fin c) ∧
        peak !! j = Some (Fin m) ∧
        drawdown !! j = Some (Fin d) ∧
        (c == p / p0)%Q ∧
        (d == c / m - 1)%Q ∧
        (d <= 0)%Q ∧
        ((d == 0)%Q ↔ (c == m)%Q) ∧
        (∀ k pk, 1 ≤ k ≤ row j → price !! k = Some (Fin pk) →
                 (pk / p0 <= m)%Q) ∧
        (∃ k pk, 1 ≤ k ≤ row j ∧ price !! k = Some (Fin pk) ∧
                 (m == pk / p0)%Q) ∧
        (∀ k ck, k ≤ j → cumulative !! k = Some (Fin ck) → (ck <= m)%Q).
Proof.
  intros Hp Hpos Hout.
  destruct (calculate_returns_Ok _ _ Hout) as (price' & rate & Hp' & Hr & ->).
  rewrite Hp in Hp'. injection Hp' as <-.
  destruct (positive_prices _ Hpos) as (ql & -> & Hql).
  destruct (derived_frame_columns data (Fin <$> ql) rate)
    as (_ & Hcum & Hpeak & Hdd & _). cbn zeta in *.
  set (mask := row_mask (derived_frame data (Fin <$> ql) rate)) in *.
  set (cum := cumprod (radd (Fin 1) (pct_change (Fin <$> ql)))) in *.
  exists (λ j, default 0 (nth_true mask j)),
    (select mask cum), (select mask (cummax cum)),
    (select mask (zip_with fdiv (zip_with fsub cum (cummax cum)) (cummax cum))).
  split; [apply dropna_rows_column; eauto|].
  split; [apply dropna_rows_column; eauto|].
  split; [apply dropna_rows_column; eauto|].
  destruct ql as [|q0 qs].
  { replace cum with (@nil fval) by reflexivity. simpl.
    destruct mask; simpl; repeat split; intros; lia. }
  apply Forall_cons in Hql as [Hq0 Hqs].
  destruct (derived_rows q0 qs Hq0 Hqs) as (Hl1 & Hl2 & Hl3 & H0 & Hrow).
  fold cum in Hl1, Hl2, Hl3, H0, Hrow.
  split; [apply select_length_eq; lia|].
  split; [apply select_length_eq; lia|].
  assert (Hrows : ∀ j,
            j < length (select mask
                          (zip_with fdiv (zip_with fsub cum (cummax cum))
                                    (cummax cum))) →
            ∃ i, nth_true mask j = Some i).
  { intros j Hj. destruct (lookup_lt_is_Some_2 _ _ Hj) as [x Hx].
    rewrite select_lookup in Hx.
    apply bind_lookup_Some in Hx as (i & Hji & _). eauto. }
  split.
  { intros k j Hkj Hj.
    destruct (Hrows j Hj) as [i Hji]. destruct (Hrows k) as [ik Hkik]; [lia|].
    rewrite Hji, Hkik. simpl. by apply (nth_true_lt mask k j). }
  intros j Hj. destruct (Hrows j Hj) as [i Hji]. rewrite Hji. simpl.
  destruct (retained_row data rate q0 qs j i Hq0 Hqs Hji) as (i' & q & -> & Hq).
  destruct (Hrow i' q Hq) as (c & m & d & Hc & Hm & Hd & Hcq & Hd1 & Hd2 & Hd3 & Hub).
  destruct (derived_peak q0 qs i' m Hq0 Hqs Hm) as (Hbound & ka & qa & Hka & Hqa & Hma).
  assert (Hidx : index (dropna_rows (derived_frame data (Fin <$> q0 :: qs) rate))
                   !! j = index data !! S i').
  { change (index (dropna_rows (derived_frame data (Fin <$> q0 :: qs) rate)))
      with (select mask (index data)).
    by rewrite select_lookup, Hji. }
  exists q0, q, c, m, d.
  split.
  { destruct (decide (63 ≤ S i')) as [|Hlt]; [done|]. exfalso.
    apply (row_mask_short data (Fin <$> q0 :: qs) rate (S i')); [lia|].
    by eapply nth_true_lookup. }
  split; [exact Hidx|].
  rewrite !select_lookup, Hji. simpl.
  split; [done|].
  split; [by rewrite list_lookup_fmap, Hq|].
  do 7 (split; [done|]).
  split.
  { intros [|k] pk [Hk1 Hk2] Hpk; [lia|]. simpl in Hpk.
    rewrite list_lookup_fmap in Hpk.
    destruct (qs !! k) as [qk|] eqn:Hqk; [|done]. injection Hpk as <-.
    apply (Hbound k); [lia | done]. }
  split.
  { exists (S ka), qa. split; [lia|]. split; [|done].
    simpl. by rewrite list_lookup_fmap, Hqa. }
  intros k ck Hk Hck. rewrite select_lookup in Hck.
  apply bind_lookup_Some in Hck as (ik & Hkik & Hck).
  pose proof (nth_true_mono _ _ _ _ _ Hk Hkik Hji) as Hle.
  destruct ik as [|k']; [rewrite H0 in Hck; done|].
  apply (Hub k' ck); [lia | done].
Qed.


(** C2, amended: in the table that [calculate_returns] returns for a
    positive price series, the cumulative growth of every retained row is
    that row's price divided by the first input price (the index is seeded
    before the first return, not at the first retained row), and only rows
    from row 63 on are retained. For the price series 100, 102, 101, 105
    the cumulative growth computed before rows are dropped is NaN, 1.02,
    1.01, 1.05, and the returned table has no rows. *)
Theorem cumulative_growth_relative_to_first_price :
  (∀ data p0 prices out,
     columns data !! "Price" = Some (Fin p0 :: prices) →
     forallb positive (Fin p0 :: prices) = true →
     calculate_returns data = Ok out →
     index out `sublist_of` drop 63 (index data) ∧
     ∃ cumulative price_out,
       columns out !! "Cumulative" = Some cumulative ∧
       columns out !! "Price" = Some price_out ∧
       length cumulative = length price_out ∧
       ∀ j, j < length cumulative →
         ∃ c p, cumulative !! j = Some (Fin c) ∧
                price_out !! j = Some (Fin p) ∧
                (c == p / p0)%Q) ∧
  cumprod (radd (Fin 1) (pct_change example_prices)) =
    [NaN; Fin (51 # 50); Fin (101 # 100); Fin (21 # 20)] ∧
  ∃ out, calculate_returns example_data = Ok out ∧ index out = [] ∧
         columns out !! "Cumulative" = Some [].
Proof.
  split; [|split; [reflexivity|]].
  - intros data p0 prices out Hp Hpos Hout.
    destruct (calculate_returns_Ok _ _ Hout) as (price' & rate & Hp' & Hr & ->).
    rewrite Hp in Hp'. injection Hp' as <-.
    destruct (positive_prices _ Hpos) as (ql & Hprice & Hql).
    destruct ql as [|q0 qs]; [done|].
    rewrite fmap_cons in Hprice. injection Hprice as -> ->.
    change (Fin q0 :: (Fin <$> qs)) with (Fin <$> q0 :: qs) in *.
    apply Forall_cons in Hql as [Hq0 Hqs].
    destruct (derived_frame_columns data (Fin <$> q0 :: qs) rate)
      as (Hprice & Hcum & _). cbn zeta in *. rewrite Hp in Hprice.
    set (mask := row_mask (derived_frame data (Fin <$> q0 :: qs) rate)) in *.
    set (cum := cumprod (radd (Fin 1) (pct_change (Fin <$> q0 :: qs)))) in *.
    destruct (derived_rows q0 qs Hq0 Hqs) as (Hl1 & _ & _ & H0 & Hrow).
    fold cum in Hl1, H0, Hrow.
    split.
    { assert (Hidx : index (dropna_rows (derived_frame data (Fin <$> q0 :: qs) rate))
                       = select (drop 63 mask) (drop 63 (index data))).
      { apply (select_drop mask (index data) 63).
        intros i Hi. by apply row_mask_short. }
      rewrite Hidx. apply select_sublist. }
    exists (select mask cum), (select mask (Fin <$> q0 :: qs)).
    split; [apply dropna_rows_column; eauto|].
    split; [apply dropna_rows_column; eauto|].
    split; [apply select_length_eq; rewrite Hl1, length_fmap; done|].
    intros j Hj.
    destruct (lookup_lt_is_Some_2 _ _ Hj) as [x Hx].
    rewrite select_lookup in Hx.
    apply bind_lookup_Some in Hx as (i & Hji & _).
    destruct (retained_row data rate q0 qs j i Hq0 Hqs Hji) as (i' & q & -> & Hq).
    destruct (Hrow i' q Hq) as (c & m & d & Hc & _ & _ & Hcq & _).
    exists c, q. rewrite !select_lookup. fold mask in Hji. rewrite Hji. simpl.
    split; [done|]. split; [|done].
    by rewrite list_lookup_fmap, Hq.
  - eexists. split; [|split].
    + apply (calculate_returns_unfold example_data); reflexivity.
    + reflexivity.
    + apply dropna_rows_column. eexists. split.
      * apply derived_frame_columns.
      * reflexivity.
Qed.

End returns_table.

(** The drawdown property at 66 days of the sample series. *)
Lemma drawdown_nonpositive_witness :
  ∃ (row : nat → nat) cumulative peak drawdown,
    columns sample_table !! "Cumulative" = Some cumulative ∧
    columns sample_table !! "Peak" = Some peak ∧
    columns sample_table !! "Drawdown" = Some drawdown ∧
    length drawdown = 3 ∧
    63 ≤ row 0 ∧ row 0 < row 2.
Proof.
  destruct (@drawdown_nonpositive numpy_run (sample_data 66)
              (sample_price <$> seq 0 66) sample_table)
    as (row & cumulative & peak & drawdown & Hc & Hp & Hd & _ & _ & Hmono & Hrow);
    [reflexivity | reflexivity | vm_compute; reflexivity |].
  exists row, cumulative, peak, drawdown.
  vm_compute in Hd. injection Hd as <-.
  split; [done|]. split; [done|]. split; [reflexivity|]. split; [reflexivity|].
  split.
  - destruct (Hrow 0) as (? & ? & ? & ? & ? & H63 & _); [simpl; lia | done].
  - apply Hmono; simpl; lia.
Defined.

(** C5 as stated fails.  The peak is the running maximum of the whole
    history, not of the table: for 66 days of the sample series every row
    of the table is at the running maximum of the table's Cumulative
    column (4/5, 1, 5/4), yet the drawdown of days 63 and 64 is -9/25 and
    -1/5, since the growth had reached 5/4 on day 1, a row that is
    dropped.  And the drawdown is not <= 0 for every table: for the series
    that is quoted below zero from day 1 on, the drawdown of day 64 is
    1/4. *)
Lemma drawdown_not_from_table_maximum :
  (∃ out cumulative drawdown,
     @calculate_returns numpy_run (sample_data 66) = Ok out ∧
     index out = [63; 64; 65]%Z ∧
     columns out !! "Cumulative" = Some cumulative ∧
     columns out !! "Drawdown" = Some drawdown ∧
     cummax cumulative = cumulative ∧
     drawdown = [Fin (-9 # 25); Fin (-1 # 5); Fin 0]) ∧
  (∃ out drawdown,
     @calculate_returns numpy_run (negative_data 66) = Ok out ∧
     index out = [63; 64; 65]%Z ∧
     columns out !! "Drawdown" = Some drawdown ∧
     drawdown !! 1 = Some (Fin (1 # 4))).
Proof.
  split.
  - exists sample_table. eexists _, _.
    split; [vm_compute; reflexivity|]. split; [reflexivity|].
    split; [vm_compute; reflexivity|]. split; [vm_compute; reflexivity|].
    split; reflexivity.
  - eexists _, _.
    split; [vm_compute; reflexivity|]. split; [reflexivity|].
    split; [vm_compute; reflexivity|]. reflexivity.
Qed.

(** C2 as stated fails: for 66 days of the sample series the first
    retained row is day 63 and its cumulative growth is 4/5 (80 / 100), not
    1; for the specification's four-day example no row is retained at
    all. *)
Lemma first_retained_cumulative_not_one :
  (∃ out cumulative,
     @calculate_returns numpy_run (sample_data 66) = Ok out ∧
     index out = [63; 64; 65]%Z ∧
     columns out !! "Cumulative" = Some cumulative ∧
     cumulative !! 0 = Some (Fin (4 # 5))) ∧
  (∃ out,
     @calculate_returns numpy_run example_data = Ok out ∧
     index out = [] ∧
     columns out !! "Cumulative" = Some []).
Proof.
  split.
  - exists sample_table. eexists.
    split; [vm_compute; reflexivity|]. split; [reflexivity|].
    split; [vm_compute; reflexivity|]. reflexivity.
  - eexists. split; [vm_compute; reflexivity|]. split; reflexivity.
Qed.

(** The retained rows of the sample series start at row 63. *)
Lemma cumulative_growth_relative_to_first_price_witness :
  index sample_table `sublist_of` drop 63 (index (sample_data 66)).
Proof.
  apply (proj1 (@cumulative_growth_relative_to_first_price numpy_run)
           (sample_data 66) 100%Q (sample_price <$> seq 1 65) sample_table);
    [reflexivity | reflexivity | vm_compute; reflexivity].
Defined.

(** ** Order statistics of a window *)

Lemma isfinite_spec x : isfinite x = true ↔ ∃ q, x = Fin q.
Proof. destruct x; simpl; split; try done; try by intros [? ?]. eauto. Qed.

Lemma finite_window (s : Series) :
  forallb isfinite s = true → ∃ qs, s = Fin <$> qs.
Proof.
  induction s as [|x s IH]; simpl; [by exists []|].
  intros [Hx Hs]%andb_true_iff. apply isfinite_spec in Hx as [q ->].
  destruct (IH Hs) as [qs ->]. by exists (q :: qs).
Qed.

Lemma insert_sorted_Fin x qs :
  insert_sorted (Fin x) (Fin <$> qs) = Fin <$> insert_q x qs.
Proof.
  induction qs as [|y qs IH]; [done|]. rewrite fmap_cons.
  cbn [insert_sorted fle insert_q]. destruct (Qle_bool x y); [done|].
  by rewrite IH.
Qed.

Lemma sort_Fin qs : sort (Fin <$> qs) = Fin <$> foldr insert_q [] qs.
Proof.
  unfold sort. induction qs as [|x qs IH]; [done|].
  rewrite fmap_cons. cbn [foldr]. by rewrite IH, insert_sorted_Fin.
Qed.

Lemma insert_q_length x l : length (insert_q x l) = S (length l).
Proof.
  induction l as [|y l IH]; [done|]. simpl.
  destruct (Qle_bool x y); simpl; by rewrite ?IH.
Qed.

Lemma sort_q_length l : length (foldr insert_q [] l) = length l.
Proof. induction l as [|x l IH]; [done|]. simpl. by rewrite insert_q_length, IH. Qed.

Lemma insert_q_Forall (P : Q → Prop) x l :
  P x → Forall P l → Forall P (insert_q x l).
Proof.
  intros Hx. induction 1 as [|y l Hy Hl IH]; simpl.
  - by repeat constructor.
  - destruct (Qle_bool x y); by repeat constructor.
Qed.

Lemma insert_q_sorted x l :
  StronglySorted Qle l → StronglySorted Qle (insert_q x l).
Proof.
  induction 1 as [|y l Hl IH Hy]; simpl.
  - by repeat constructor.
  - destruct (Qle_bool x y) eqn:Hxy.
    + apply Qle_bool_iff in Hxy. constructor; [by constructor|].
      constructor; [done|]. eapply Forall_impl; [exact Hy|].
      intros z Hz. simpl in Hz. lra.
    + assert (y <= x)%Q as Hyx.
      { apply Qlt_le_weak, Qnot_le_lt. intros Hle%Qle_bool_iff. congruence. }
      constructor; [done|]. by apply insert_q_Forall.
Qed.

Lemma sort_q_sorted l : StronglySorted Qle (foldr insert_q [] l).
Proof. induction l; simpl; [constructor | by apply insert_q_sorted]. Qed.

Lemma sorted_lookup_le (l : list Q) i j a b :
  StronglySorted Qle l → i ≤ j → l !! i = Some a → l !! j = Some b → (a <= b)%Q.
Proof.
  intros Hl. revert i j. induction Hl as [|x l Hl IH Hx]; intros i j Hij; [done|].
  destruct i as [|i], j as [|j]; simpl; try lia.
  - intros [= <-] [= <-]. lra.
  - intros [= <-] Hb. rewrite Forall_lookup in Hx. by apply (Hx j).
  - apply IH. lia.
Qed.

(** The interpolated quantile lies between the two order statistics that
    bracket it. *)
Lemma quantile_of_finite q ws m :
  length ws = S m → (0 <= q)%Q → (q <= 1)%Q →
  let sq := foldr insert_q [] ws in
  let pos := (q * inject_Z (Z.of_nat m))%Q in
  let k := Z.to_nat (Qfloor pos) in
  ∃ v a,
    quantile_of q (Fin <$> ws) = Fin v ∧
    sq !! k = Some a ∧
    (inject_Z (Z.of_nat k) <= pos)%Q ∧
    (a <= v)%Q ∧
    ((pos == inject_Z (Z.of_nat k))%Q ∧ (v == a)%Q ∨
     (inject_Z (Z.of_nat k) < pos)%Q ∧
     ∃ b, sq !! S k = Some b ∧
          (v == a + (b - a) * (pos - inject_Z (Z.of_nat k)))%Q ∧ (v <= b)%Q).
Proof.
  intros Hlen Hq0 Hq1 sq pos k.
  assert (Hm0 : (0 <= inject_Z (Z.of_nat m))%Q).
  { change 0%Q with (inject_Z 0). rewrite <- Zle_Qle. lia. }
  assert (Hpos0 : (0 <= pos)%Q) by (unfold pos; nra).
  assert (Hposm : (pos <= inject_Z (Z.of_nat m))%Q) by (unfold pos; nra).
  assert (Hidx0 : (0 <= Qfloor pos)%Z).
  { change 0%Z with (Qfloor 0). by apply Qfloor_resp_le. }
  assert (Hidxm : (Qfloor pos <= Z.of_nat m)%Z).
  { rewrite <- (Qfloor_Z (Z.of_nat m)). by apply Qfloor_resp_le. }
  assert (Hk : Z.of_nat k = Qfloor pos) by (unfold k; lia).
  assert (Hsl : length sq = S m) by (unfold sq; by rewrite sort_q_length).
  assert (Hsorted : StronglySorted Qle sq) by apply sort_q_sorted.
  destruct (lookup_lt_is_Some_2 sq k) as [a Ha]; [lia|].
  pose proof (Qfloor_le pos) as Hfl. pose proof (Qlt_floor pos) as Hfu.
  rewrite <- Hk in Hfl, Hfu.
  unfold quantile_of. rewrite length_fmap, Hlen, sort_Fin.
  fold sq pos. rewrite <- Hk, !Nat2Z.id.
  rewrite (list_lookup_total_correct (Fin <$> sq) k (Fin a))
    by by rewrite list_lookup_fmap, Ha.
  destruct (Qeq_bool pos (inject_Z (Z.of_nat k))) eqn:Heq.
  - apply Qeq_bool_iff in Heq. exists a, a.
    repeat split; [done | done | lra |]. left. split; [done | lra].
  - assert (Hne : ¬ (pos == inject_Z (Z.of_nat k))%Q).
    { intros Heq'%Qeq_bool_iff. congruence. }
    assert (Hlt : (inject_Z (Z.of_nat k) < pos)%Q).
    { destruct (Qlt_le_dec (inject_Z (Z.of_nat k)) pos) as [|Hge]; [done|].
      exfalso. apply Hne. lra. }
    assert (Hkm : k < m).
    { destruct (decide (k < m)) as [|Hge]; [done|]. exfalso.
      assert (k = m) as Hkeq by lia. rewrite Hkeq in Hlt. lra. }
    destruct (lookup_lt_is_Some_2 sq (S k)) as [b Hb]; [lia|].
    rewrite (list_lookup_total_correct (Fin <$> sq) (S k) (Fin b))
      by by rewrite list_lookup_fmap, Hb.
    assert (Hab : (a <= b)%Q)
      by exact (sorted_lookup_le sq k (S k) a b Hsorted (Nat.le_succ_diag_r k) Ha Hb).
    rewrite inject_Z_plus in Hfu. change (inject_Z 1) with 1%Q in Hfu.
    cbn [fsub fmul fadd]. eexists _, a.
    split; [reflexivity|]. split; [done|]. split; [lra|].
    set (f := (pos - inject_Z (Z.of_nat k))%Q) in *.
    assert (Hv : (Qred (a + Qred (Qred (b - a) * Qred f)) == a + (b - a) * f)%Q)
      by (rewrite !Qred_correct; reflexivity).
    assert (Hf0 : (0 < f)%Q) by (unfold f; lra).
    assert (Hf1 : (f < 1)%Q) by (unfold f; lra).
    split; [rewrite Hv; nra|]. right. split; [done|].
    exists b. split; [done|]. split; [done|]. rewrite Hv. nra.
Qed.

(** The quantile of a finite window does not decrease with [q]. *)
Lemma quantile_of_monotone q1 q2 ws :
  0 < length ws → (0 <= q1)%Q → (q1 <= q2)%Q → (q2 <= 1)%Q →
  ∃ v1 v2, quantile_of q1 (Fin <$> ws) = Fin v1 ∧
           quantile_of q2 (Fin <$> ws) = Fin v2 ∧ (v1 <= v2)%Q.
Proof.
  intros Hlen H0 H12 H1.
  destruct (length ws) as [|m] eqn:Hm; [lia|].
  destruct (quantile_of_finite q1 ws m Hm) as (v1 & a1 & Hv1 & Ha1 & Hk1 & Hav1 & Hc1);
    [lra | lra |].
  destruct (quantile_of_finite q2 ws m Hm) as (v2 & a2 & Hv2 & Ha2 & Hk2 & Hav2 & Hc2);
    [lra | lra |].
  exists v1, v2. split; [done|]. split; [done|].
  set (sq := foldr insert_q [] ws) in *.
  assert (Hsorted : StronglySorted Qle sq) by apply sort_q_sorted.
  assert (Hm0 : (0 <= inject_Z (Z.of_nat m))%Q).
  { change 0%Q with (inject_Z 0). rewrite <- Zle_Qle. lia. }
  set (pos1 := (q1 * inject_Z (Z.of_nat m))%Q) in *.
  set (pos2 := (q2 * inject_Z (Z.of_nat m))%Q) in *.
  assert (Hpos : (pos1 <= pos2)%Q) by (unfold pos1, pos2; nra).
  set (k1 := Z.to_nat (Qfloor pos1)) in *.
  set (k2 := Z.to_nat (Qfloor pos2)) in *.
  assert (Hk : k1 ≤ k2).
  { unfold k1, k2. apply Z2Nat.inj_le.
    - change 0%Z with (Qfloor 0). apply Qfloor_resp_le. unfold pos1. nra.
    - change 0%Z with (Qfloor 0). apply Qfloor_resp_le. unfold pos2. nra.
    - by apply Qfloor_resp_le. }
  destruct (decide (k1 = k2)) as [Heq|Hne].
  - rewrite <- Heq in *. rewrite Ha1 in Ha2. injection Ha2 as <-.
    destruct Hc1 as [[Hp1 Hv1a] | (Hp1 & b1 & Hb1 & Hv1b & _)].
    + lra.
    + destruct Hc2 as [[Hp2 Hv2a] | (Hp2 & b2 & Hb2 & Hv2b & _)]; [lra|].
      rewrite Hb1 in Hb2. injection Hb2 as <-.
      assert (Hab : (a1 <= b1)%Q)
        by exact (sorted_lookup_le sq k1 (S k1) a1 b1 Hsorted
                    (Nat.le_succ_diag_r k1) Ha1 Hb1).
      rewrite Hv1b, Hv2b. nra.
  - assert (Hupper : ∃ u, (v1 <= u)%Q ∧ (u <= a2)%Q).
    { destruct Hc1 as [[_ Hv1a] | (_ & b1 & Hb1 & _ & Hv1b)].
      - exists a1. split; [lra|].
        apply (sorted_lookup_le sq k1 k2); [done | lia | done | done].
      - exists b1. split; [done|].
        apply (sorted_lookup_le sq (S k1) k2); [done | lia | done | done]. }
    destruct Hupper as (u & Hu1 & Hu2). lra.
Qed.

Lemma trailing_window_length w (s : Series) i :
  w ≤ S i → i < length s → length (trailing_window w s i) = w.
Proof.
  intros Hw Hi. unfold trailing_window. rewrite length_take, length_drop. lia.
Qed.

Lemma flt_Fin a b : flt (Fin a) (Fin b) = true ↔ (a < b)%Q.
Proof.
  cbn [flt]. rewrite Qlt_alt. destruct (a ?= b)%Q; split; congruence.
Qed.

(** A quantile level within [0, 1] is accepted. *)
Lemma rolling_quantile_Fin w q s :
  (0 <= q)%Q → (q <= 1)%Q →
  rolling_quantile w (Fin q) s = Ok (rolling w (quantile_of q) s).
Proof.
  intros H0 H1. unfold rolling_quantile, fgt.
  destruct (flt (Fin q) (Fin 0)) eqn:Hlo.
  { apply flt_Fin in Hlo. lra. }
  destruct (flt (Fin 1) (Fin q)) eqn:Hhi; [|done].
  apply flt_Fin in Hhi. lra.
Qed.

(** C7: for confidence levels 0 <= c1 < c2 <= 1, both rolling VaR series
    are produced, and at every row whose trailing window is full and holds
    finite returns the VaR at the higher confidence c2 is at most the VaR
    at the lower confidence c1. *)
Theorem rolling_var_monotone returns window c1 c2 :
  (0 <= c1)%Q → (c1 < c2)%Q → (c2 <= 1)%Q →
  ∃ v1 v2,
    rolling_var returns window (Fin c1) = Ok v1 ∧
    rolling_var returns window (Fin c2) = Ok v2 ∧
    ∀ i, 0 < window → window ≤ S i → i < length returns →
         forallb isfinite (trailing_window window returns i) = true →
         ∃ x1 x2, v1 !! i = Some (Fin x1) ∧ v2 !! i = Some (Fin x2) ∧
                  (x2 <= x1)%Q.
Proof.
  intros H0 H12 H1. unfold rolling_var. cbn [fsub].
  rewrite !rolling_quantile_Fin by (rewrite Qred_correct; lra).
  eexists _, _. split; [reflexivity|]. split; [reflexivity|].
  intros i Hw Hwi Hi Hfin.
  rewrite !rolling_lookup by done.
  case_decide; [|lia]. rewrite Hfin.
  destruct (finite_window _ Hfin) as [ws Hws].
  pose proof (trailing_window_length window returns i Hwi Hi) as Hlen.
  rewrite Hws in *. rewrite length_fmap in Hlen.
  destruct (quantile_of_monotone (Qred (1 - c2)) (Qred (1 - c1)) ws)
    as (x2 & x1 & Hx2 & Hx1 & Hle);
    [lia | rewrite Qred_correct; lra | rewrite !Qred_correct; lra
     | rewrite Qred_correct; lra |].
  exists x1, x2. by rewrite Hx1, Hx2.
Qed.

(** Confidence 0.90 against 0.95 on a window of three returns. *)
Lemma rolling_var_monotone_witness :
  ∃ v1 v2,
    rolling_var [Fin (1 # 100); Fin (-1 # 100); Fin (3 # 100); Fin (2 # 100)]
                3 (Fin (9 # 10)) = Ok v1 ∧
    rolling_var [Fin (1 # 100); Fin (-1 # 100); Fin (3 # 100); Fin (2 # 100)]
                3 (Fin (95 # 100)) = Ok v2 ∧
    ∃ x1 x2, v1 !! 2 = Some (Fin x1) ∧ v2 !! 2 = Some (Fin x2) ∧ (x2 <= x1)%Q.
Proof.
  destruct (rolling_var_monotone
              [Fin (1 # 100); Fin (-1 # 100); Fin (3 # 100); Fin (2 # 100)]
              3 (9 # 10) (95 # 100))
    as (v1 & v2 & Hv1 & Hv2 & Hrow); [done | done | done |].
  exists v1, v2. split; [done|]. split; [done|].
  apply Hrow; [lia | lia | simpl; lia | reflexivity].
Defined.

Section random_paths.
Context `{Generator}.

Lemma draw_row_length loc scale n st :
  length (draw_row loc scale n st).1 = n.
Proof.
  revert st. induction n as [|n IH]; intros st; simpl; [done|].
  destruct (rng_gauss st) as [g st1]. specialize (IH st1).
  destruct (draw_row loc scale n st1) as [row st2]. simpl in *. by rewrite IH.
Qed.

Lemma draw_rows_shape loc scale rows cols st :
  length (draw_rows loc scale rows cols st).1 = rows ∧
  Forall (λ row, length row = cols) (draw_rows loc scale rows cols st).1.
Proof.
  revert st. induction rows as [|rows IH]; intros st; simpl; [by split|].
  pose proof (draw_row_length loc scale cols st) as Hrow.
  destruct (draw_row loc scale cols st) as [row st1].
  destruct (IH st1) as [Hlen Hall].
  destruct (draw_rows loc scale rows cols st1) as [rest st2]. simpl in *.
  split; [by rewrite Hlen | by constructor].
Qed.

Lemma accumulate_length op (s : Series) : length (accumulate op s) = length s.
Proof. destruct s; simpl; [done|]. by rewrite accumulate_from_length. Qed.

(** C8: [monte_carlo] reseeds the generator, so its outcome (the path matrix
    and the generator state it leaves) does not depend on the state the
    generator was in: two invocations with the same mean, volatility and
    path count give the same matrix, in particular an invocation that
    follows another; the matrix has one row of 252 steps per path. *)
Theorem monte_carlo_deterministic mu sigma sims (st1 st2 : rng_state) :
  monte_carlo mu sigma sims st1 = monte_carlo mu sigma sims st2 ∧
  ∀ paths st',
    monte_carlo mu sigma sims st1 = (Ok paths, st') →
    monte_carlo mu sigma sims st' = (Ok paths, st') ∧
    length paths = sims ∧
    Forall (λ path, length path = 252) paths.
Proof.
  split; [reflexivity|].
  intros paths st' Hrun. split; [exact Hrun|].
  unfold monte_carlo, random_seed, random_normal in Hrun.
  destruct (flt (fmul sigma (Fin 3)) (Fin 0)); [done|].
  destruct (draw_rows_shape mu (fmul sigma (Fin 3)) sims 252 (rng_seed 42))
    as [Hlen Hall].
  destruct (draw_rows mu (fmul sigma (Fin 3)) sims 252 (rng_seed 42))
    as [sims_data st]. simpl in *.
  injection Hrun as <- <-. split; [by rewrite length_map|].
  apply Forall_map. eapply Forall_impl; [exact Hall|].
  intros row Hrow. simpl.
  by rewrite length_map; unfold np_cumprod, radd;
    rewrite accumulate_length, length_map.
Qed.

End random_paths.

(** * Further properties *)

(** ** Dropping incomplete rows *)

Lemma select_elem {A} mask (l : list A) x :
  x ∈ select mask l → ∃ i, mask !! i = Some true ∧ l !! i = Some x.
Proof.
  intros [j Hj]%list_elem_of_lookup. rewrite select_lookup in Hj.
  destruct (nth_true mask j) as [i|] eqn:Hi; [|done].
  exists i. split; [by eapply nth_true_lookup | done].
Qed.

Lemma select_length_mask {A} mask (l : list A) :
  length mask ≤ length l → length (select mask l) = length (List.filter id mask).
Proof.
  revert l. induction mask as [|b mask IH]; intros [|x l] Hlen; simpl in *;
    try done; try lia.
  destruct b; simpl; rewrite IH; auto with lia.
Qed.

Lemma select_all_false {A} mask (l : list A) :
  (∀ i, mask !! i ≠ Some true) → select mask l = [].
Proof.
  revert l. induction mask as [|b mask IH]; intros [|x l] Hm; simpl; try done.
  destruct b; [by destruct (Hm 0)|]. apply IH. intros i. apply (Hm (S i)).
Qed.

Lemma row_mask_length df : length (row_mask df) = length (index df).
Proof. unfold row_mask. by rewrite length_map, length_seq. Qed.

(** After [dropna] a well-formed frame is well formed and holds no NaN. *)
Lemma dropna_rows_complete df :
  well_formed df →
  well_formed (dropna_rows df) ∧
  ∀ c s, columns (dropna_rows df) !! c = Some s → Forall (λ x, notna x = true) s.
Proof.
  intros Hwf. split.
  - intros c s (s0 & Hs0 & ->)%dropna_rows_column.
    change (index (dropna_rows df)) with (select (row_mask df) (index df)).
    apply select_length_eq. exact (Hwf c s0 Hs0).
  - intros c s (s0 & Hs0 & ->)%dropna_rows_column.
    apply Forall_forall. intros x (i & Hi & Hx)%select_elem.
    destruct (row_mask_true df i c s0 Hi Hs0) as (y & Hy & Hnan).
    rewrite Hx in Hy. by injection Hy as <-.
Qed.

Lemma pct_change_length s : length (pct_change s) = length s.
Proof.
  unfold pct_change, ffill. cbn zeta.
  rewrite length_zip_with, shift_length, ffill_from_length. lia.
Qed.

Lemma na_accum_length op fill s : length (na_accum op fill s) = length s.
Proof.
  unfold na_accum. rewrite length_zip_with.
  destruct s as [|x s]; [done|]. simpl.
  rewrite accumulate_from_length, length_map. lia.
Qed.

Section returns_table_shape.
Context `{Numpy}.

Lemma derived_frame_well_formed data price rate :
  columns data !! "Price" = Some price → columns data !! "Rate" = Some rate →
  well_formed data → well_formed (derived_frame data price rate).
Proof.
  intros Hp Hr Hwf c s. unfold derived_frame, setitem. simpl.
  pose proof (Hwf _ _ Hp) as Hlp. pose proof (Hwf _ _ Hr) as Hlr.
  simpl in Hlp, Hlr.
  assert (Hret : length (pct_change price) = length (index data))
    by by rewrite pct_change_length.
  assert (Hcum : length (cumprod (radd (Fin 1) (pct_change price)))
                 = length (index data)).
  { unfold cumprod, radd. by rewrite na_accum_length, length_map. }
  assert (Hpeak : length (cummax (cumprod (radd (Fin 1) (pct_change price))))
                  = length (index data)).
  { unfold cummax. by rewrite na_accum_length. }
  assert (Hvol : ∀ w x, length (smul (rolling_std w (pct_change price)) x)
                        = length (index data)).
  { intros w x. unfold smul, rolling_std. by rewrite length_map, rolling_length. }
  rewrite lookup_insert. case_decide.
  { intros [= <-]. rewrite !length_zip_with. lia. }
  rewrite lookup_insert. case_decide; [by intros [= <-]|].
  rewrite lookup_insert. case_decide; [by intros [= <-]|].
  rewrite lookup_insert. case_decide; [by intros [= <-]|].
  rewrite lookup_insert. case_decide; [by intros [= <-]|].
  rewrite lookup_insert. case_decide.
  { intros [= <-]. by rewrite pct_change_length. }
  rewrite lookup_insert. case_decide; [by intros [= <-]|].
  intros Hs. exact (Hwf _ _ Hs).
Qed.

Lemma getitem_Raise df c :
  columns df !! c = None → getitem df c = Raise (KeyError c).
Proof. intros Hc. unfold getitem. by rewrite Hc. Qed.

(** X1: [calculate_returns] raises exactly when a column it reads is missing:
    KeyError Price when the input has no Price column, KeyError Rate when
    it has Price but no Rate; it raises nothing else. *)
Theorem calculate_returns_missing_column data e :
  calculate_returns data = Raise e ↔
  columns data !! "Price" = None ∧ e = KeyError "Price" ∨
  is_Some (columns data !! "Price") ∧ columns data !! "Rate" = None ∧
  e = KeyError "Rate".
Proof.
  destruct (columns data !! "Price") as [price|] eqn:Hp.
  - destruct (columns data !! "Rate") as [rate|] eqn:Hr.
    + rewrite (calculate_returns_unfold _ _ _ Hp Hr). split; [done|].
      intros [[? _] | (_ & ? & _)]; done.
    + assert (Hrun : calculate_returns data = Raise (KeyError "Rate")).
      { unfold calculate_returns.
        rewrite (proj2 (getitem_Ok data "Price" price) Hp). simpl.
        rewrite getitem_setitem_ne by done.
        by rewrite (getitem_Raise _ _ Hr). }
      rewrite Hrun. split.
      * intros [= <-]. right. eauto.
      * intros [[? _] | (_ & _ & ->)]; done.
  - assert (Hrun : calculate_returns data = Raise (KeyError "Price")).
    { unfold calculate_returns. by rewrite (getitem_Raise _ _ Hp). }
    rewrite Hrun. split.
    + intros [= <-]. by left.
    + intros [[_ ->] | ([? ?] & _)]; done.
Qed.

(** X2: on a well-formed input the table that [calculate_returns]
    returns is well formed (every column has one entry per retained index
    label) and no column holds a NaN. *)
Theorem calculate_returns_complete_rows data out :
  well_formed data →
  calculate_returns data = Ok out →
  well_formed out ∧
  ∀ c s, columns out !! c = Some s → Forall (λ x, notna x = true) s.
Proof.
  intros Hwf Hout.
  destruct (calculate_returns_Ok _ _ Hout) as (price & rate & Hp & Hr & ->).
  apply dropna_rows_complete. by apply derived_frame_well_formed.
Qed.

(** X3: an input of at most 63 rows leaves nothing: the returned table
    has an empty index and every column is empty. *)
Theorem calculate_returns_short_history data out :
  length (index data) ≤ 63 →
  calculate_returns data = Ok out →
  index out = [] ∧ ∀ c s, columns out !! c = Some s → s = [].
Proof.
  intros Hlen Hout.
  destruct (calculate_returns_Ok _ _ Hout) as (price & rate & Hp & Hr & ->).
  assert (Hmask : ∀ i, row_mask (derived_frame data price rate) !! i ≠ Some true).
  { intros i Hi. pose proof (lookup_lt_Some _ _ _ Hi) as Hlt.
    rewrite row_mask_length in Hlt.
    change (index (derived_frame data price rate)) with (index data) in Hlt.
    apply (row_mask_short data price rate i); [lia | done]. }
  split.
  - by apply select_all_false.
  - intros c s (s0 & _ & ->)%dropna_rows_column. by apply select_all_false.
Qed.

End returns_table_shape.

Lemma running_max_mono cs i1 i2 m1 m2 :
  i1 ≤ i2 →
  accumulate_from fmaximum NInf (Fin <$> cs) !! i1 = Some (Fin m1) →
  accumulate_from fmaximum NInf (Fin <$> cs) !! i2 = Some (Fin m2) →
  (m1 <= m2)%Q.
Proof.
  intros Hle H1 H2.
  pose proof (lookup_lt_Some _ _ _ H1) as Hl1.
  pose proof (lookup_lt_Some _ _ _ H2) as Hl2.
  rewrite accumulate_from_length, length_fmap in Hl1, Hl2.
  destruct (lookup_lt_is_Some_2 cs i1 Hl1) as [c1 Hc1].
  destruct (lookup_lt_is_Some_2 cs i2 Hl2) as [c2 Hc2].
  destruct (running_max cs i1 c1 Hc1) as (m1' & Hm1 & _ & k & Hk & Hck).
  destruct (running_max cs i2 c2 Hc2) as (m2' & Hm2 & Hub & _).
  rewrite H1 in Hm1. rewrite H2 in Hm2.
  injection Hm1 as <-. injection Hm2 as <-.
  apply (Hub k m1); [lia | done].
Qed.

Section returns_table_rows.
Context `{Numpy}.

(** X4: the retained rows are rows of the input, in the input's order:
    the returned index is a sublist of the input index, and row j of the
    result is some input row i >= 63 whose index label and whose value in
    every input column other than the seven derived ones are unchanged. *)
Theorem calculate_returns_rows_of_input data out :
  calculate_returns data = Ok out →
  index out `sublist_of` index data ∧
  ∀ j, j < length (index out) →
    ∃ i, 63 ≤ i ∧ index out !! j = index data !! i ∧
      ∀ c s0,
        c ∉ ["Returns"; "Rate_Change"; "Vol_21D"; "Vol_63D";
             "Cumulative"; "Peak"; "Drawdown"] →
        columns data !! c = Some s0 →
        ∃ s, columns out !! c = Some s ∧ s !! j = s0 !! i.
Proof.
  intros Hout.
  destruct (calculate_returns_Ok _ _ Hout) as (price & rate & Hp & Hr & ->).
  set (mask := row_mask (derived_frame data price rate)).
  change (index (dropna_rows (derived_frame data price rate)))
    with (select mask (index data)).
  split; [apply select_sublist|].
  intros j Hj. destruct (lookup_lt_is_Some_2 _ _ Hj) as [x Hx].
  pose proof Hx as Hx'. rewrite select_lookup in Hx'.
  destruct (nth_true mask j) as [i|] eqn:Hji; [|done]. simpl in Hx'.
  exists i. split; [|split].
  - destruct (decide (63 ≤ i)) as [|Hlt]; [done|]. exfalso.
    apply (row_mask_short data price rate i); [lia|].
    by eapply nth_true_lookup.
  - by rewrite Hx, Hx'.
  - intros c s0 Hc Hs0. exists (select mask s0). split.
    + apply dropna_rows_column. exists s0. split; [|done].
      unfold derived_frame, setitem. simpl.
      rewrite !lookup_insert_ne; [done | | | | | | | ];
        intros <-; apply Hc; repeat constructor.
    + by rewrite select_lookup, Hji.
Qed.

(** X5: for a positive price series the Peak column of the returned
    table is finite and never decreases from one retained row to a later
    one. *)
Theorem peak_non_decreasing data price out :
  columns data !! "Price" = Some price →
  forallb positive price = true →
  calculate_returns data = Ok out →
  ∃ peak,
    columns out !! "Peak" = Some peak ∧
    ∀ j1 j2 m1 m2,
      j1 ≤ j2 → peak !! j1 = Some m1 → peak !! j2 = Some m2 →
      ∃ q1 q2, m1 = Fin q1 ∧ m2 = Fin q2 ∧ (q1 <= q2)%Q.
Proof.
  intros Hp Hpos Hout.
  destruct (calculate_returns_Ok _ _ Hout) as (price' & rate & Hp' & Hr & ->).
  rewrite Hp in Hp'. injection Hp' as <-.
  destruct (positive_prices _ Hpos) as (ql & -> & Hql).
  destruct (derived_frame_columns data (Fin <$> ql) rate)
    as (_ & _ & Hpeak & _). cbn zeta in Hpeak.
  set (mask := row_mask (derived_frame data (Fin <$> ql) rate)) in *.
  eexists. split; [apply dropna_rows_column; eauto|].
  fold mask. intros j1 j2 m1 m2 Hj H1 H2.
  rewrite select_lookup in H1, H2.
  destruct (nth_true mask j1) as [i1|] eqn:Hi1; [|done].
  destruct (nth_true mask j2) as [i2|] eqn:Hi2; [|done].
  simpl in H1, H2.
  pose proof (nth_true_mono _ _ _ _ _ Hj Hi1 Hi2) as Hi.
  destruct ql as [|q0 qs].
  { by destruct i1. }
  apply Forall_cons in Hql as [Hq0 Hqs].
  destruct (retained_row data rate q0 qs j1 i1 Hq0 Hqs Hi1) as (k1 & ? & -> & _).
  destruct (retained_row data rate q0 qs j2 i2 Hq0 Hqs Hi2) as (k2 & ? & -> & _).
  destruct (cumulative_column q0 qs Hq0 Hqs) as (cs & Hcs & _).
  rewrite Hcs in H1, H2. unfold cummax in H1, H2.
  rewrite na_accum_nan_head in H1, H2 by apply Forall_notna_Fin.
  simpl in H1, H2.
  pose proof (lookup_lt_Some _ _ _ H1) as Hl1.
  pose proof (lookup_lt_Some _ _ _ H2) as Hl2.
  rewrite accumulate_from_length, length_fmap in Hl1, Hl2.
  destruct (lookup_lt_is_Some_2 cs k1 Hl1) as [c1 Hc1].
  destruct (lookup_lt_is_Some_2 cs k2 Hl2) as [c2 Hc2].
  destruct (running_max cs k1 c1 Hc1) as (q1 & Hq1 & _).
  destruct (running_max cs k2 c2 Hc2) as (q2 & Hq2 & _).
  rewrite H1 in Hq1. rewrite H2 in Hq2.
  injection Hq1 as ->. injection Hq2 as ->.
  exists q1, q2. split; [done|]. split; [done|].
  apply (running_max_mono cs k1 k2); [lia | done | done].
Qed.

End returns_table_rows.

(** ** The momentum overlay *)

Lemma where_positive_lookup s i m :
  s !! i = Some m →
  where_positive s !! i = Some (if fgt m (Fin 0) then Fin 1 else Fin 0).
Proof. intros Hm. unfold where_positive. by rewrite list_lookup_fmap, Hm. Qed.

Lemma fmul_zero_l r : fmul (Fin 0) (Fin r) = Fin 0.
Proof.
  destruct r as [n d]. reflexivity.
Qed.

(** The columns that the overlay adds, and the lag between them. *)
Lemma momentum_strategy_columns df lookback returns :
  columns df !! "Returns" = Some returns →
  let momentum := rolling_mean lookback returns in
  let signal := where_positive momentum in
  ∃ out strat,
    momentum_strategy df lookback = Ok out ∧
    columns out !! "Returns" = Some returns ∧
    columns out !! "Momentum" = Some momentum ∧
    columns out !! "Signal" = Some signal ∧
    columns out !! "Strategy_Return" = Some strat ∧
    length strat = length returns ∧
    (0 < length returns → strat !! 0 = Some NaN) ∧
    ∀ i r, returns !! S i = Some r →
      ∃ p, signal !! i = Some p ∧ strat !! S i = Some (fmul p r).
Proof.
  intros Hr momentum signal. eexists _, _.
  split; [by apply momentum_strategy_unfold|]. simpl.
  split; [by rewrite !lookup_insert_ne by done|].
  split; [by rewrite !lookup_insert_ne, lookup_insert_eq by done|].
  split; [by rewrite lookup_insert_ne, lookup_insert_eq by done|].
  split; [by rewrite lookup_insert_eq|].
  assert (Hlen : length signal = length returns).
  { unfold signal, momentum, rolling_mean.
    by rewrite where_positive_length, rolling_length. }
  fold momentum. fold signal.
  split; [rewrite length_zip_with, shift_length; lia|]. split.
  - intros Hpos. destruct returns as [|r returns]; [simpl in Hpos; lia|].
    destruct signal as [|p signal]; [done|]. reflexivity.
  - intros i r Hi. pose proof (lookup_lt_Some _ _ _ Hi) as Hlt.
    destruct (lookup_lt_is_Some_2 signal i) as [p Hp]; [lia|].
    exists p. split; [done|].
    rewrite lookup_zip_with, shift_lookup_S by lia. rewrite Hp. simpl.
    by rewrite Hi.
Qed.

Lemma fmul_one_l r : ∃ v, fmul (Fin 1) (Fin r) = Fin v ∧ (v == r)%Q.
Proof. eexists. split; [reflexivity|]. rewrite Qred_correct. ring. Qed.

(** X6: [momentum_strategy] raises exactly when the input has no
    Returns column, and then KeyError Returns. *)
Theorem momentum_strategy_missing_column df lookback e :
  momentum_strategy df lookback = Raise e ↔
  columns df !! "Returns" = None ∧ e = KeyError "Returns".
Proof.
  destruct (columns df !! "Returns") as [returns|] eqn:Hr.
  - rewrite (momentum_strategy_unfold _ _ _ Hr). split; [done | by intros [? _]].
  - unfold momentum_strategy. rewrite (getitem_Raise _ _ Hr). simpl. split.
    + by intros [= <-].
    + by intros [_ ->].
Qed.

(** X7: the overlay is long or flat: the position is 1 where the
    momentum is above 0 and 0 elsewhere (also where it is NaN), and after
    row 0 the strategy return of a finite return is 0 when the previous
    position is 0 and the return itself when it is 1. *)
Theorem momentum_strategy_long_or_flat df lookback returns :
  columns df !! "Returns" = Some returns →
  ∃ out momentum signal strat,
    momentum_strategy df lookback = Ok out ∧
    columns out !! "Momentum" = Some momentum ∧
    columns out !! "Signal" = Some signal ∧
    columns out !! "Strategy_Return" = Some strat ∧
    (∀ i m, momentum !! i = Some m →
       signal !! i = Some (if fgt m (Fin 0) then Fin 1 else Fin 0)) ∧
    (∀ i p, signal !! i = Some p → p = Fin 0 ∨ p = Fin 1) ∧
    (∀ i r, returns !! S i = Some (Fin r) →
       ∃ v, strat !! S i = Some (Fin v) ∧
            (signal !! i = Some (Fin 0) ∧ v = 0%Q ∨
             signal !! i = Some (Fin 1) ∧ (v == r)%Q)).
Proof.
  intros Hr.
  destruct (momentum_strategy_columns df lookback returns Hr)
    as (out & strat & Hout & _ & Hmom & Hsig & Hstrat & _ & _ & Hlag).
  exists out, (rolling_mean lookback returns),
    (where_positive (rolling_mean lookback returns)), strat.
  do 4 (split; [done|]).
  assert (Hpos : ∀ i p, where_positive (rolling_mean lookback returns) !! i = Some p →
                        p = Fin 0 ∨ p = Fin 1).
  { intros i p. unfold where_positive. rewrite list_lookup_fmap.
    intros (m & _ & ->)%fmap_Some. destruct (fgt m (Fin 0)); [by right | by left]. }
  split; [intros i m; apply where_positive_lookup|]. split; [exact Hpos|].
  intros i r Hi. destruct (Hlag i (Fin r) Hi) as (p & Hp & Hv).
  destruct (Hpos i p Hp) as [-> | ->].
  - exists 0%Q. rewrite Hv, fmul_zero_l. split; [done|]. by left.
  - destruct (fmul_one_l r) as (v & Hmul & Hvr). exists v.
    rewrite Hv, Hmul. split; [done|]. by right.
Qed.

(** X8: during the warm-up the overlay holds no position: at every row
    from 1 to lookback - 1 the strategy return of a finite return is 0. *)
Theorem momentum_strategy_warm_up df lookback returns :
  columns df !! "Returns" = Some returns →
  ∃ out strat,
    momentum_strategy df lookback = Ok out ∧
    columns out !! "Strategy_Return" = Some strat ∧
    ∀ i r, S i < lookback → returns !! S i = Some (Fin r) →
           strat !! S i = Some (Fin 0).
Proof.
  intros Hr.
  destruct (momentum_strategy_columns df lookback returns Hr)
    as (out & strat & Hout & _ & _ & _ & Hstrat & _ & _ & Hlag).
  exists out, strat. do 2 (split; [done|]).
  intros i r Hw Hi. destruct (Hlag i (Fin r) Hi) as (p & Hp & Hv).
  pose proof (lookup_lt_Some _ _ _ Hi) as Hlt.
  assert (Hm : rolling_mean lookback returns !! i = Some NaN).
  { apply rolling_short; lia. }
  rewrite (where_positive_lookup _ _ _ Hm) in Hp. injection Hp as <-.
  by rewrite Hv, fmul_zero_l.
Qed.

(** ** The metrics *)

Lemma dropna_Fin (qs : list Q) : dropna (Fin <$> qs) = Fin <$> qs.
Proof. induction qs as [|q qs IH]; [done|]. rewrite fmap_cons. simpl. by rewrite IH. Qed.

Lemma dropna_finite s : forallb isfinite s = true → dropna s = s.
Proof. intros [qs ->]%finite_window. apply dropna_Fin. Qed.

Lemma inject_nat_pos n : 0 < n → (0 < inject_Z (Z.of_nat n))%Q.
Proof. intros Hn. change 0%Q with (inject_Z 0). rewrite <- Zlt_Qlt. lia. Qed.

Lemma filter_length_bound {A} (f : A → bool) l :
  length (List.filter f l) ≤ length l.
Proof. induction l as [|x l IH]; simpl; [lia|]. destruct (f x); simpl; lia. Qed.

(** The sum of the indicators of the positive observations is their
    number. *)
Lemma fsum_indicators a rs :
  ∃ b, foldl fadd (Fin a)
         (map (λ r, if fgt r (Fin 0) then Fin 1 else Fin 0) rs) = Fin b ∧
       (b == a + inject_Z (Z.of_nat (count_positive rs)))%Q.
Proof.
  revert a. induction rs as [|r rs IH]; intros a.
  - exists a. split; [done|]. unfold count_positive. simpl.
    change (inject_Z 0) with 0%Q. ring.
  - cbn [map foldl]. unfold count_positive. cbn [List.filter].
    destruct (fgt r (Fin 0)).
    + destruct (IH (Qred (a + 1))) as (b & Hb & Hab). exists b.
      split; [done|]. rewrite Hab, Qred_correct. cbn [length].
      rewrite Nat2Z.inj_succ, <- Z.add_1_l, inject_Z_plus.
      unfold count_positive. change (inject_Z 1) with 1%Q. ring.
    + destruct (IH (Qred (a + 0))) as (b & Hb & Hab). exists b.
      split; [done|]. rewrite Hab, Qred_correct. unfold count_positive. ring.
Qed.

Lemma indicators_notna rs :
  dropna (map (λ r, if fgt r (Fin 0) then Fin 1 else Fin 0) rs)
  = map (λ r, if fgt r (Fin 0) then Fin 1 else Fin 0) rs.
Proof.
  unfold dropna. induction rs as [|r rs IH]; [done|]. cbn [map List.filter].
  rewrite IH. by destruct (fgt r (Fin 0)).
Qed.

Section metrics_values.
Context `{Numpy}.

(** The tuple that [performance_metrics] returns on a stream with an
    observation. *)
Lemma performance_metrics_value s :
  dropna s ≠ [] →
  ∃ m, performance_metrics s = Ok m ∧
    max_dd m =
      pd_min (map (λ x, fsub x (Fin 1))
                  (zip_with fdiv (cumprod (radd (Fin 1) (dropna s)))
                            (cummax (cumprod (radd (Fin 1) (dropna s)))))) ∧
    win_rate m =
      pd_mean (map (λ r, if fgt r (Fin 0) then Fin 1 else Fin 0) (dropna s)).
Proof.
  intros Hs. unfold performance_metrics.
  rewrite py_truediv_pos by (destruct (dropna s); [done | simpl; lia]).
  simpl. eexists. split; [reflexivity|]. done.
Qed.

(** X9: on a stream with an observation the win rate is the number of
    strictly positive observations divided by the number of observations,
    a value between 0 and 1. *)
Theorem win_rate_fraction s :
  dropna s ≠ [] →
  ∃ m w,
    performance_metrics s = Ok m ∧
    win_rate m = Fin w ∧
    (w == inject_Z (Z.of_nat (count_positive (dropna s)))
          / inject_Z (Z.of_nat (length (dropna s))))%Q ∧
    (0 <= w)%Q ∧ (w <= 1)%Q.
Proof.
  intros Hs. destruct (performance_metrics_value s Hs) as (m & Hm & _ & Hw).
  set (rs := dropna s) in *.
  assert (Hn : 0 < length rs) by (destruct rs; [done | simpl; lia]).
  pose proof (inject_nat_pos _ Hn) as Hnq.
  destruct (fsum_indicators 0 rs) as (b & Hb & Hbc).
  assert (Hcount : (inject_Z (Z.of_nat (count_positive rs))
                    <= inject_Z (Z.of_nat (length rs)))%Q).
  { rewrite <- Zle_Qle. pose proof (filter_length_bound (λ r, fgt r (Fin 0)) rs).
    unfold count_positive. lia. }
  assert (Hc0 : (0 <= inject_Z (Z.of_nat (count_positive rs)))%Q).
  { change 0%Q with (inject_Z 0). rewrite <- Zle_Qle. lia. }
  exists m. eexists. split; [done|].
  rewrite Hw. unfold pd_mean. rewrite indicators_notna, length_map.
  unfold fsum. rewrite Hb. unfold of_nat, of_Z. cbn [fdiv].
  rewrite (Qeq_bool_pos _ Hnq).
  split; [reflexivity|].
  assert (Hval : (Qred (b / inject_Z (Z.of_nat (length rs)))
                  == inject_Z (Z.of_nat (count_positive rs))
                     / inject_Z (Z.of_nat (length rs)))%Q).
  { rewrite Qred_correct, Hbc. field. lra. }
  split; [done|]. rewrite Hval.
  assert (Hinv : (0 < / inject_Z (Z.of_nat (length rs)))%Q)
    by by apply Qinv_lt_0_compat.
  split.
  - unfold Qdiv. apply Qmult_le_0_compat; lra.
  - apply Qle_shift_div_r; [done|]. lra.
Qed.

End metrics_values.

Lemma na_accum_notna op fill s :
  Forall (λ x, notna x = true) s → na_accum op fill s = accumulate op s.
Proof.
  intros Hs. unfold na_accum. rewrite (fill_notna _ _ Hs).
  apply mask_notna; [done|]. destruct s; [done|]. simpl.
  by rewrite accumulate_from_length.
Qed.

Lemma above_minus_one_spec x :
  above_minus_one x = true ↔ ∃ q, x = Fin q ∧ (-1 < q)%Q.
Proof.
  destruct x as [| | |q]; simpl; try (split; [done | by intros (? & ? & ?)]).
  rewrite negb_true_iff. split.
  - intros Hq. exists q. split; [done|].
    apply Qnot_le_lt. intros Hle%Qle_bool_iff. congruence.
  - intros (q' & [= <-] & Hq). apply not_true_is_false.
    intros Hle%Qle_bool_iff. lra.
Qed.

Lemma returns_above_minus_one s :
  forallb above_minus_one s = true →
  ∃ qs, s = Fin <$> qs ∧ Forall (λ q, (-1 < q)%Q) qs.
Proof.
  induction s as [|x s IH]; simpl.
  - exists []. by split.
  - intros [Hx Hs]%andb_true_iff.
    apply above_minus_one_spec in Hx as (q & -> & Hq).
    destruct (IH Hs) as (qs & -> & Hqs). exists (q :: qs). split; [done|].
    by constructor.
Qed.

Lemma growth_factors_positive qs :
  Forall (λ q, (-1 < q)%Q) qs →
  ∃ fs, radd (Fin 1) (Fin <$> qs) = Fin <$> fs ∧ Forall (λ f, (0 < f)%Q) fs.
Proof.
  induction 1 as [|q qs Hq _ (fs & Hfs & Hpos)].
  - exists []. by split.
  - exists (Qred (1 + q) :: fs). unfold radd in *.
    rewrite (fmap_cons Fin q qs). cbn [map]. rewrite Hfs.
    split; [done|]. constructor; [|done].
    rewrite Qred_correct. lra.
Qed.

Lemma growth_from_positive a fs :
  (0 < a)%Q → Forall (λ f, (0 < f)%Q) fs →
  ∃ gs, accumulate_from fmul (Fin a) (Fin <$> fs) = Fin <$> gs ∧
        Forall (λ g, (0 < g)%Q) gs.
Proof.
  intros Ha Hfs. revert a Ha.
  induction Hfs as [|f fs Hf _ IH]; intros a Ha.
  - exists []. by split.
  - assert (Haf : (0 < Qred (a * f))%Q).
    { rewrite Qred_correct. by apply Qmult_lt_0_compat. }
    destruct (IH _ Haf) as (gs & Hgs & Hpos).
    exists (Qred (a * f) :: gs). rewrite !fmap_cons.
    cbn [accumulate_from fmul]. rewrite Hgs. split; [done|]. by constructor.
Qed.

Lemma fmaximum_Fin a g :
  fmaximum (Fin a) (Fin g) = Fin (if Qle_bool g a then a else g).
Proof. unfold fmaximum. simpl. by destruct (Qle_bool g a). Qed.

Lemma fminimum_Fin a x :
  fminimum (Fin a) (Fin x) = Fin (if Qle_bool a x then a else x).
Proof. unfold fminimum. simpl. by destruct (Qle_bool a x). Qed.

Lemma peak_from_above a gs :
  ∃ ms, accumulate_from fmaximum (Fin a) (Fin <$> gs) = Fin <$> ms ∧
        Forall2 (λ g m, (g <= m)%Q ∧ (a <= m)%Q) gs ms.
Proof.
  revert a. induction gs as [|g gs IH]; intros a.
  - exists []. by split.
  - rewrite fmap_cons. cbn [accumulate_from]. rewrite fmaximum_Fin.
    destruct (Qle_bool g a) eqn:Hga.
    + apply Qle_bool_iff in Hga. destruct (IH a) as (ms & Hms & Hall).
      exists (a :: ms). rewrite fmap_cons, Hms. split; [done|].
      constructor; [split; lra|]. done.
    + assert (a < g)%Q as Hlt.
      { apply Qnot_le_lt. intros Hle%Qle_bool_iff. congruence. }
      destruct (IH g) as (ms & Hms & Hall).
      exists (g :: ms). rewrite fmap_cons, Hms. split; [done|].
      constructor; [split; lra|].
      eapply Forall2_impl; [exact Hall|]. intros x y [? ?]. split; lra.
Qed.

Lemma drawdowns_bounded gs ms :
  Forall (λ g, (0 < g)%Q) gs →
  Forall2 (λ g m, (g <= m)%Q) gs ms →
  ∃ ds, map (λ x, fsub x (Fin 1)) (zip_with fdiv (Fin <$> gs) (Fin <$> ms))
        = Fin <$> ds ∧
        length ds = length gs ∧
        Forall (λ d, (-1 < d)%Q ∧ (d <= 0)%Q) ds.
Proof.
  intros Hpos Hall. induction Hall as [|g m gs ms Hgm _ IH].
  - exists []. by repeat split.
  - apply Forall_cons in Hpos as [Hg Hpos].
    destruct (IH Hpos) as (ds & Hds & Hlen & Hb).
    assert (Hm : (0 < m)%Q) by lra.
    exists (Qred (Qred (g / m) - 1) :: ds). rewrite !fmap_cons.
    cbn [zip_with map fdiv fsub]. rewrite (Qeq_bool_pos _ Hm), Hds.
    split; [done|]. split; [simpl; lia|]. constructor; [|done].
    rewrite !Qred_correct.
    assert (0 < g / m)%Q by by apply Qdiv_pos.
    assert (g / m <= 1)%Q by (apply Qle_shift_div_r; lra).
    split; lra.
Qed.

Lemma foldl_fminimum_elem a l :
  ∃ d, foldl fminimum (Fin a) (Fin <$> l) = Fin d ∧ (d = a ∨ d ∈ l).
Proof.
  revert a. induction l as [|x l IH]; intros a.
  - exists a. split; [done | by left].
  - rewrite fmap_cons. cbn [foldl]. rewrite fminimum_Fin.
    destruct (Qle_bool a x).
    + destruct (IH a) as (d & Hd & [Heq | Hin]); exists d;
        (split; [done|]); [by left | right; by right].
    + destruct (IH x) as (d & Hd & [Heq | Hin]); exists d;
        (split; [done|]); right; [rewrite Heq; by left | by right].
Qed.

Section metrics_drawdown.
Context `{Numpy}.

(** X10: when every observation is finite and above -1 the maximum
    drawdown is finite, at most 0 and above -1. *)
Theorem max_drawdown_bounds s :
  dropna s ≠ [] →
  forallb above_minus_one (dropna s) = true →
  ∃ m d, performance_metrics s = Ok m ∧ max_dd m = Fin d ∧
         (-1 < d)%Q ∧ (d <= 0)%Q.
Proof.
  intros Hs Habove.
  destruct (performance_metrics_value s Hs) as (m & Hm & Hdd & _).
  destruct (returns_above_minus_one _ Habove) as (qs & Hqs & Hq).
  rewrite Hqs in *. clear Hqs.
  destruct (growth_factors_positive qs Hq) as (fs & Hfs & Hfpos).
  rewrite Hfs in Hdd.
  assert (Hgrowth : ∃ gs, cumprod (Fin <$> fs) = Fin <$> gs ∧
                          Forall (λ g, (0 < g)%Q) gs ∧ gs ≠ []).
  { unfold cumprod. rewrite na_accum_notna by apply Forall_notna_Fin.
    destruct fs as [|f fs]; [by destruct qs|].
    apply Forall_cons in Hfpos as [Hf Hfpos].
    destruct (growth_from_positive f fs Hf Hfpos) as (gs & Hgs & Hgpos).
    exists (f :: gs). rewrite !fmap_cons. cbn [accumulate].
    rewrite Hgs. split; [done|]. split; [by constructor | done]. }
  destruct Hgrowth as (gs & Hgs & Hgpos & Hne). rewrite Hgs in Hdd.
  assert (Hpeak : ∃ ms, cummax (Fin <$> gs) = Fin <$> ms ∧
                        Forall2 (λ g m, (g <= m)%Q) gs ms).
  { unfold cummax. rewrite na_accum_notna by apply Forall_notna_Fin.
    destruct gs as [|g gs]; [done|].
    destruct (peak_from_above g gs) as (ms & Hms & Hall).
    exists (g :: ms). rewrite !fmap_cons. cbn [accumulate]. rewrite Hms.
    split; [done|]. constructor; [lra|].
    eapply Forall2_impl; [exact Hall|]. by intros x y [? _]. }
  destruct Hpeak as (ms & Hms & Hall). rewrite Hms in Hdd.
  destruct (drawdowns_bounded gs ms Hgpos Hall) as (ds & Hds & Hlen & Hb).
  rewrite Hds in Hdd. unfold pd_min in Hdd. rewrite dropna_Fin in Hdd.
  destruct ds as [|d0 ds]; [by destruct gs|].
  rewrite fmap_cons in Hdd.
  destruct (foldl_fminimum_elem d0 ds) as (d & Hd & Hin).
  rewrite Hd in Hdd. exists m, d. split; [done|]. split; [done|].
  rewrite Forall_forall in Hb. apply Hb.
  destruct Hin as [-> | Hin]; [by left | by right].
Qed.

End metrics_drawdown.

(** ** Rolling Value-at-Risk *)

Lemma insert_q_elem x y l : y ∈ insert_q x l → y = x ∨ y ∈ l.
Proof.
  induction l as [|z l IH]; simpl.
  - intros ->%list_elem_of_singleton. by left.
  - destruct (Qle_bool x z).
    + intros [-> | Hin]%elem_of_cons; [by left | by right].
    + intros [-> | Hin]%elem_of_cons; [right; by left|].
      destruct (IH Hin) as [-> | Hl]; [by left | right; by right].
Qed.

Lemma sort_q_elem y l : y ∈ foldr insert_q [] l → y ∈ l.
Proof.
  induction l as [|x l IH]; simpl; [done|].
  intros [-> | Hin]%insert_q_elem; [by left | right; auto].
Qed.



(** X12: at a row with a full window of finite returns the VaR lies
    within every pair of bounds that hold for the returns of the window. *)
Theorem rolling_var_within_window returns window c lo hi v i :
  (0 <= c)%Q → (c <= 1)%Q →
  rolling_var returns window (Fin c) = Ok v →
  0 < window → window ≤ S i → i < length returns →
  (∀ x, x ∈ trailing_window window returns i →
        ∃ q, x = Fin q ∧ (lo <= q)%Q ∧ (q <= hi)%Q) →
  ∃ q, v !! i = Some (Fin q) ∧ (lo <= q)%Q ∧ (q <= hi)%Q.
Proof.
  intros Hc0 Hc1 Hv Hw Hwi Hi Hrange.
  unfold rolling_var in Hv. cbn [fsub] in Hv.
  assert (Hq0 : (0 <= Qred (1 - c))%Q) by (rewrite Qred_correct; lra).
  assert (Hq1 : (Qred (1 - c) <= 1)%Q) by (rewrite Qred_correct; lra).
  rewrite rolling_quantile_Fin in Hv by done. injection Hv as <-.
  assert (Hfin : forallb isfinite (trailing_window window returns i) = true).
  { apply forallb_forall. intros x Hx%list_elem_of_In.
    destruct (Hrange x Hx) as (q & -> & _). done. }
  rewrite rolling_lookup by done. case_decide; [|lia].
  rewrite Hfin.
  destruct (finite_window _ Hfin) as [ws Hws].
  pose proof (trailing_window_length window returns i Hwi Hi) as Hlen.
  rewrite Hws in *. rewrite length_fmap in Hlen.
  destruct window as [|m]; [lia|].
  destruct (quantile_of_finite (Qred (1 - c)) ws m Hlen Hq0 Hq1)
    as (q & a & Hq & Ha & _ & Haq & Hcase).
  assert (Hin : ∀ k b, foldr insert_q [] ws !! k = Some b →
                       (lo <= b)%Q ∧ (b <= hi)%Q).
  { intros k b Hb. apply list_elem_of_lookup_2, sort_q_elem in Hb.
    destruct (Hrange (Fin b)) as (b' & [= <-] & ? & ?);
      [by apply list_elem_of_fmap_2 | done]. }
  exists q. split; [by rewrite Hq|].
  destruct (Hin _ _ Ha) as [Hlo Hhi].
  destruct Hcase as [[_ Heq] | (_ & b & Hb & _ & Hqb)].
  - split; lra.
  - destruct (Hin _ _ Hb) as [_ Hbhi]. split; lra.
Qed.

(** ** Monte Carlo paths *)

Lemma flt_Fin_zero q : flt (Fin q) (Fin 0) = true ↔ (q < 0)%Q.
Proof.
  simpl. rewrite Qlt_alt. destruct (q ?= 0)%Q; split; congruence.
Qed.

(** Tripling the volatility keeps its sign. *)
Lemma stressed_scale_negative sigma :
  flt (fmul sigma (Fin 3)) (Fin 0) = flt sigma (Fin 0).
Proof.
  destruct sigma as [| | |q]; try reflexivity.
  cbn [fmul]. apply eq_true_iff_eq. rewrite !flt_Fin_zero, Qred_correct.
  split; intros; lra.
Qed.

Section random_paths_more.
Context `{Generator}.

Lemma draw_rows_add loc scale n k cols st :
  draw_rows loc scale (n + k) cols st =
    ((draw_rows loc scale n cols st).1
       ++ (draw_rows loc scale k cols (draw_rows loc scale n cols st).2).1,
     (draw_rows loc scale k cols (draw_rows loc scale n cols st).2).2).
Proof.
  revert st. induction n as [|n IH]; intros st; simpl.
  - by destruct (draw_rows loc scale k cols st).
  - destruct (draw_row loc scale cols st) as [row st1]. rewrite IH.
    destruct (draw_rows loc scale n cols st1) as [rest st2]. simpl.
    by destruct (draw_rows loc scale k cols st2).
Qed.

(** X13: [monte_carlo] raises exactly when the volatility is negative:
    ValueError, with the generator already reseeded to 42. *)
Theorem monte_carlo_negative_volatility mu sigma sims st e st' :
  monte_carlo mu sigma sims st = (Raise e, st') ↔
  flt sigma (Fin 0) = true ∧ e = ValueError "scale < 0" ∧ st' = rng_seed 42.
Proof.
  unfold monte_carlo, random_seed, random_normal.
  rewrite stressed_scale_negative.
  destruct (flt sigma (Fin 0)).
  - split; [by intros [= <- <-] | by intros (_ & -> & ->)].
  - destruct (draw_rows mu (fmul sigma (Fin 3)) sims 252 (rng_seed 42)).
    split; [done | by intros [? _]].
Qed.

(** X14: asking for more paths leaves the earlier paths as they were:
    the matrix for [sims] paths is the first [sims] rows of the matrix for
    [sims + more] paths. *)
Theorem monte_carlo_prefix mu sigma sims more st paths st' :
  monte_carlo mu sigma (sims + more) st = (Ok paths, st') →
  ∃ st'', monte_carlo mu sigma sims st = (Ok (take sims paths), st'').
Proof.
  unfold monte_carlo, random_seed, random_normal.
  destruct (flt (fmul sigma (Fin 3)) (Fin 0)); [done|].
  rewrite draw_rows_add.
  pose proof (draw_rows_shape mu (fmul sigma (Fin 3)) sims 252 (rng_seed 42))
    as [Hlen _].
  destruct (draw_rows mu (fmul sigma (Fin 3)) sims 252 (rng_seed 42))
    as [first st1]. simpl in *.
  destruct (draw_rows mu (fmul sigma (Fin 3)) more 252 st1) as [rest st2].
  simpl. intros [= <- <-]. exists st1. f_equal. f_equal.
  rewrite map_app, take_app_length'; [done|]. by rewrite length_map.
Qed.

End random_paths_more.

(** ** The login gate *)

(** [authenticate] by the flag found in the session. *)
Lemma authenticate_authenticated w (s : gmap string bool) :
  s !! "authenticated" = Some true → authenticate w s = (Continue, s, []).
Proof.
  intros Hs. unfold authenticate. rewrite Hs.
  by rewrite (lookup_total_correct s "authenticated" true Hs).
Qed.

Lemma authenticate_unauthenticated w (s : gmap string bool) :
  s !! "authenticated" ≠ Some true →
  let s0 := <["authenticated" := false]> s in
  authenticate w s =
    if login_button w then
      if decide (password_input w = "quant123") then
        (Rerun, <["authenticated" := true]> s0,
         [Title "Login Required"; Success "Login successful"])
      else (Stop, s0, [Title "Login Required"; Error "Invalid password"])
    else (Stop, s0, [Title "Login Required"]).
Proof.
  intros Hs. unfold authenticate.
  destruct (s !! "authenticated") as [[|]|] eqn:Hflag; [done | |].
  - rewrite (lookup_total_correct s "authenticated" false Hflag).
    by rewrite (insert_id s "authenticated" false Hflag).
  - by rewrite lookup_total_insert_eq.
Qed.

(** X15: a run passes the gate exactly when the session is already
    authenticated at its start, and it asks for a rerun exactly when the
    session is not authenticated, the button was pressed and the password
    is the expected one; every other run stops at the gate. *)
Theorem authenticate_control w (s : gmap string bool) :
  ((authenticate w s).1.1 = Continue ↔ s !! "authenticated" = Some true) ∧
  ((authenticate w s).1.1 = Rerun ↔
     s !! "authenticated" ≠ Some true ∧ login_button w = true ∧
     password_input w = "quant123").
Proof.
  destruct (decide (s !! "authenticated" = Some true)) as [Hs|Hs].
  - rewrite (authenticate_authenticated w s Hs). simpl.
    split; split; try done. by intros [? _].
  - rewrite (authenticate_unauthenticated w s Hs). cbn zeta.
    destruct (login_button w); [case_decide|]; simpl;
      split; split; try done; try (by intros (_ & ? & ?)); try tauto.
Qed.

(** X16: after [authenticate] the flag is always defined; it is true
    exactly when it was true before or the expected password was submitted
    with the button, and no other key of the session changes. *)
Theorem authenticate_session w (s : gmap string bool) :
  (authenticate w s).1.2 !! "authenticated" =
    Some (bool_decide (s !! "authenticated" = Some true)
          || login_button w && bool_decide (password_input w = "quant123")) ∧
  ∀ k, k ≠ "authenticated" → (authenticate w s).1.2 !! k = s !! k.
Proof.
  destruct (decide (s !! "authenticated" = Some true)) as [Hs|Hs].
  - rewrite (authenticate_authenticated w s Hs). simpl.
    by rewrite bool_decide_eq_true_2.
  - rewrite (authenticate_unauthenticated w s Hs). cbn zeta.
    rewrite (bool_decide_eq_false_2 _ Hs).
    destruct (login_button w); [case_decide as Hpw|]; simpl.
    + rewrite lookup_insert_eq, (bool_decide_eq_true_2 _ Hpw).
      split; [done|]. intros k Hk. by rewrite !lookup_insert_ne.
    + rewrite lookup_insert_eq, (bool_decide_eq_false_2 _ Hpw).
      split; [done|]. intros k Hk. by rewrite lookup_insert_ne.
    + rewrite lookup_insert_eq.
      split; [done|]. intros k Hk. by rewrite lookup_insert_ne.
Qed.

(** X17: when a run ends in a rerun, the success message was shown and
    the next run passes the gate whatever the widgets hold, leaving the
    session as it is. *)
Theorem login_then_continue w w' (s s' : gmap string bool) shown :
  authenticate w s = (Rerun, s', shown) →
  authenticate w' s' = (Continue, s', []) ∧
  shown = [Title "Login Required"; Success "Login successful"].
Proof.
  intros Hrun.
  destruct (decide (s !! "authenticated" = Some true)) as [Hs|Hs].
  { by rewrite (authenticate_authenticated w s Hs) in Hrun. }
  rewrite (authenticate_unauthenticated w s Hs) in Hrun. cbn zeta in Hrun.
  destruct (login_button w); [case_decide|]; try done.
  injection Hrun as <- <-. split; [|done].
  apply authenticate_authenticated. by rewrite lookup_insert_eq.
Qed.

Lemma login_then_continue_witness :
  ∃ s', authenticate {| password_input := "quant123"; login_button := true |} ∅
          = (Rerun, s', [Title "Login Required"; Success "Login successful"]) ∧
        authenticate {| password_input := ""; login_button := false |} s'
          = (Continue, s', []).
Proof.
  eexists. split; [reflexivity|].
  exact (proj1 (login_then_continue
                  {| password_input := "quant123"; login_button := true |}
                  {| password_input := ""; login_button := false |}
                  ∅ _ _ eq_refl)).
Defined.

(** ** Loading the two series *)

Lemma subframe_adj_close df s :
  columns df !! "Adj Close" = Some s →
  subframe df ["Adj Close"]
  = Ok {| index := index df; columns := {["Adj Close" := s]} |}.
Proof.
  intros Hs. unfold subframe. cbn [getcols].
  by rewrite (proj2 (getitem_Ok df "Adj Close" s) Hs).
Qed.

Lemma subframe_adj_close_missing df :
  columns df !! "Adj Close" = None →
  subframe df ["Adj Close"] = Raise (KeyError "Adj Close").
Proof.
  intros Hs. unfold subframe. cbn [getcols].
  by rewrite (getitem_Raise df "Adj Close" Hs).
Qed.

Lemma rename_adj_close new idx s :
  rename "Adj Close" new {| index := idx; columns := {["Adj Close" := s]} |}
  = {| index := idx; columns := {[new := s]} |}.
Proof.
  unfold rename. simpl. rewrite lookup_singleton_eq.
  f_equal; by rewrite delete_singleton_eq, insert_empty.
Qed.

(** The frame that the merge of the two one-column frames builds. *)
Lemma merge_price_rate il ir (p r : Series) :
  merge {| index := il; columns := {["Price" := p]} |}
        {| index := ir; columns := {["Rate" := r]} |}
  = {| index := map (λ rw : nat * nat, il !!! rw.1) (join_rows il ir);
       columns :=
         <["Price" := map (λ rw : nat * nat, p !!! rw.1) (join_rows il ir)]>
           ({["Rate" := map (λ rw : nat * nat, r !!! rw.2) (join_rows il ir)]}) |}.
Proof.
  unfold merge. simpl. by f_equal.
Qed.

Lemma join_rows_elem il ir i k :
  (i, k) ∈ join_rows il ir →
  i < length il ∧ k < length ir ∧ ir !! k = il !! i.
Proof.
  unfold join_rows. rewrite list_elem_of_In, in_flat_map.
  intros (i' & Hi' & Hin). apply in_map_iff in Hin as (k' & [= <- <-] & Hk).
  apply filter_In in Hk as [Hk Heq]. apply in_seq in Hi', Hk.
  apply bool_decide_eq_true in Heq. repeat split; [lia | lia | done].
Qed.

Lemma joined_well_formed nifty rates p r : well_formed (joined nifty rates p r).
Proof.
  intros c s. unfold joined. simpl. rewrite lookup_insert.
  case_decide; [intros [= <-]; by rewrite !length_map|].
  rewrite lookup_singleton. case_decide; [|done].
  intros [= <-]. by rewrite !length_map.
Qed.

Section loader_facts.
Context `{Yahoo}.

Lemma load_data_unfold start end_ p r :
  columns (download "^NSEI" start end_) !! "Adj Close" = Some p →
  columns (download "^TNX" start end_) !! "Adj Close" = Some r →
  load_data start end_
  = Ok (dropna_rows (joined (download "^NSEI" start end_)
                            (download "^TNX" start end_) p r)).
Proof.
  intros Hp Hr. unfold load_data.
  rewrite (subframe_adj_close _ _ Hp). simpl.
  rewrite (subframe_adj_close _ _ Hr). simpl.
  by rewrite !rename_adj_close, merge_price_rate.
Qed.

Lemma load_data_no_nifty start end_ :
  columns (download "^NSEI" start end_) !! "Adj Close" = None →
  load_data start end_ = Raise (KeyError "Adj Close").
Proof.
  intros Hp. unfold load_data. by rewrite (subframe_adj_close_missing _ Hp).
Qed.

Lemma load_data_no_rates start end_ p :
  columns (download "^NSEI" start end_) !! "Adj Close" = Some p →
  columns (download "^TNX" start end_) !! "Adj Close" = None →
  load_data start end_ = Raise (KeyError "Adj Close").
Proof.
  intros Hp Hr. unfold load_data. rewrite (subframe_adj_close _ _ Hp). simpl.
  by rewrite (subframe_adj_close_missing _ Hr).
Qed.

Lemma load_data_Ok start end_ data :
  load_data start end_ = Ok data →
  ∃ p r,
    columns (download "^NSEI" start end_) !! "Adj Close" = Some p ∧
    columns (download "^TNX" start end_) !! "Adj Close" = Some r ∧
    data = dropna_rows (joined (download "^NSEI" start end_)
                               (download "^TNX" start end_) p r).
Proof.
  intros Hdata.
  destruct (columns (download "^NSEI" start end_) !! "Adj Close")
    as [p|] eqn:Hp.
  - destruct (columns (download "^TNX" start end_) !! "Adj Close")
      as [r|] eqn:Hr.
    + rewrite (load_data_unfold _ _ _ _ Hp Hr) in Hdata.
      injection Hdata as <-. eauto.
    + by rewrite (load_data_no_rates _ _ _ Hp Hr) in Hdata.
  - by rewrite (load_data_no_nifty _ _ Hp) in Hdata.
Qed.

(** X18: [load_data] raises exactly when one of the two downloads
    lacks its Adj Close column, and then KeyError Adj Close. *)
Theorem load_data_missing_column start end_ e :
  load_data start end_ = Raise e ↔
  e = KeyError "Adj Close" ∧
  (columns (download "^NSEI" start end_) !! "Adj Close" = None ∨
   columns (download "^TNX" start end_) !! "Adj Close" = None).
Proof.
  destruct (columns (download "^NSEI" start end_) !! "Adj Close")
    as [p|] eqn:Hp.
  - destruct (columns (download "^TNX" start end_) !! "Adj Close")
      as [r|] eqn:Hr.
    + rewrite (load_data_unfold _ _ _ _ Hp Hr).
      split; [done | by intros [_ [|]]].
    + rewrite (load_data_no_rates _ _ _ Hp Hr).
      split; [intros [= <-]; auto | by intros [-> _]].
  - rewrite (load_data_no_nifty _ _ Hp).
    split; [intros [= <-]; auto | by intros [-> _]].
Qed.

(** X19: the table that [load_data] returns has exactly the columns
    Price and Rate, one entry per index label in each, and no NaN. *)
Theorem load_data_complete start end_ data :
  load_data start end_ = Ok data →
  dom (columns data) = {["Price"; "Rate"]} ∧
  well_formed data ∧
  ∀ c s, columns data !! c = Some s → Forall (λ x, notna x = true) s.
Proof.
  intros (p & r & Hp & Hr & ->)%load_data_Ok. split.
  - unfold dropna_rows, joined. simpl.
    rewrite dom_fmap_L, dom_insert_L, dom_singleton_L. done.
  - apply dropna_rows_complete, joined_well_formed.
Qed.

(** X20: every row of the loaded table is a day of both series: its
    label is a label of the index download and of the rate download, its
    Price is the index's Adj Close at that label and its Rate the rate's. *)
Theorem load_data_rows start end_ data :
  load_data start end_ = Ok data →
  ∃ adj_nifty adj_rates price rate,
    columns (download "^NSEI" start end_) !! "Adj Close" = Some adj_nifty ∧
    columns (download "^TNX" start end_) !! "Adj Close" = Some adj_rates ∧
    columns data !! "Price" = Some price ∧
    columns data !! "Rate" = Some rate ∧
    ∀ j t, index data !! j = Some t →
      ∃ i k x y,
        index (download "^NSEI" start end_) !! i = Some t ∧
        index (download "^TNX" start end_) !! k = Some t ∧
        adj_nifty !! i = Some x ∧ adj_rates !! k = Some y ∧
        price !! j = Some x ∧ rate !! j = Some y.
Proof.
  intros (p & r & Hp & Hr & ->)%load_data_Ok.
  set (nifty := download "^NSEI" start end_) in *.
  set (rates := download "^TNX" start end_) in *.
  set (df := joined nifty rates p r).
  set (rows := join_rows (index nifty) (index rates)).
  assert (Hprice : columns df !! "Price"
                   = Some (map (λ rw : nat * nat, p !!! rw.1) rows))
    by (unfold df, joined; simpl; by rewrite lookup_insert_eq).
  assert (Hrate : columns df !! "Rate"
                  = Some (map (λ rw : nat * nat, r !!! rw.2) rows)).
  { unfold df, joined. simpl.
    by rewrite lookup_insert_ne, lookup_singleton_eq by done. }
  exists p, r. eexists _, _. do 2 (split; [done|]).
  split; [apply dropna_rows_column; eauto|].
  split; [apply dropna_rows_column; eauto|].
  intros j t Ht.
  change (index (dropna_rows df)) with (select (row_mask df) (index df)) in Ht.
  rewrite select_lookup in Ht.
  destruct (nth_true (row_mask df) j) as [n|] eqn:Hn; [|done]. simpl in Ht.
  change (index df) with (map (λ rw : nat * nat, index nifty !!! rw.1) rows) in Ht.
  rewrite list_lookup_fmap in Ht. fold rows in Ht.
  destruct (rows !! n) as [[i k]|] eqn:Hrow; [|done].
  simpl in Ht. injection Ht as <-.
  destruct (join_rows_elem (index nifty) (index rates) i k)
    as (Hi & Hk & Heq); [by eapply list_elem_of_lookup_2|].
  pose proof (nth_true_lookup _ _ _ Hn) as Hmask.
  destruct (row_mask_true df n "Price" _ Hmask Hprice) as (x & Hx & Hxn).
  destruct (row_mask_true df n "Rate" _ Hmask Hrate) as (y & Hy & Hyn).
  rewrite list_lookup_fmap, Hrow in Hx, Hy. simpl in Hx, Hy.
  injection Hx as <-. injection Hy as <-.
  apply lookup_total_notna in Hxn as (x & Hx & _).
  apply lookup_total_notna in Hyn as (y & Hy & _).
  exists i, k, x, y.
  rewrite !select_lookup, Hn. simpl. rewrite !list_lookup_fmap, Hrow. simpl.
  rewrite (list_lookup_total_correct _ _ _ Hx),
    (list_lookup_total_correct _ _ _ Hy).
  destruct (lookup_lt_is_Some_2 (index nifty) i Hi) as [t Ht].
  rewrite (list_lookup_total_correct _ _ _ Ht).
  repeat split; try done. by rewrite Heq.
Qed.

(** X21: [calculate_returns] never raises on a table that
    [load_data] returned, and its rows are rows of that table in order. *)
Theorem load_data_then_calculate_returns `{Numpy} start end_ data :
  load_data start end_ = Ok data →
  ∃ out, calculate_returns data = Ok out ∧
         index out `sublist_of` index data.
Proof.
  intros (p & r & _ & _ & ->)%load_data_Ok.
  eexists. split.
  - apply calculate_returns_unfold; apply dropna_rows_column; eexists;
      (split; [|reflexivity]); unfold joined; simpl.
    + by rewrite lookup_insert_eq.
    + by rewrite lookup_insert_ne, lookup_singleton_eq by done.
  - apply select_sublist.
Qed.

End loader_facts.

(** ** Measuring the chosen strategy *)

Lemma dropna_all_notna s : Forall (λ x, notna x = true) s → dropna s = s.
Proof.
  induction 1 as [|x s Hx _ IH]; [done|]. unfold dropna in *. simpl.
  by rewrite Hx, IH.
Qed.

(** The strategy returns of a table of finite returns: undefined at row 0,
    defined from then on. *)
Lemma strategy_returns_defined (signal returns strat : Series) :
  length signal = length returns →
  forallb isfinite returns = true →
  (∀ i p, signal !! i = Some p → p = Fin 0 ∨ p = Fin 1) →
  strat = zip_with fmul (shift signal) returns →
  length (dropna strat) = length returns - 1.
Proof.
  intros Hlen Hfin Hsig ->. destruct returns as [|r returns].
  { by destruct (shift signal). }
  destruct signal as [|p signal]; [done|].
  unfold shift. simpl. rewrite Nat.sub_0_r.
  simpl in Hlen, Hfin. apply andb_true_iff in Hfin as [_ Hfin].
  rewrite dropna_all_notna.
  { rewrite length_zip_with, length_take. simpl. lia. }
  apply Forall_lookup. intros i x. rewrite lookup_zip_with.
  destruct (take (length signal) (p :: signal) !! i) as [q|] eqn:Hq; [|done].
  destruct (returns !! i) as [y|] eqn:Hy; [|done]. simpl. intros [= <-].
  apply lookup_take_Some in Hq as [Hq _].
  destruct (finite_window _ Hfin) as [qs ->].
  rewrite list_lookup_fmap in Hy.
  destruct (qs !! i) as [z|]; [|done]. injection Hy as <-.
  by destruct (Hsig i q Hq) as [-> | ->].
Qed.

Section dashboard_facts.
Context `{Numpy}.

(** X22: on a table of finite returns the performance section needs two
    rows with the Momentum strategy and one row with any other: with
    that many rows both sets of metrics are computed, with fewer it ends in
    ZeroDivisionError. *)
Theorem strategy_performance_defined strategy data lookback returns :
  columns data !! "Returns" = Some returns →
  forallb isfinite returns = true →
  let needed := if decide (strategy = "Momentum") then 2 else 1 in
  (needed ≤ length returns →
   ∃ m b, strategy_performance strategy data lookback = Ok (m, b)) ∧
  (length returns < needed →
   strategy_performance strategy data lookback = Raise ZeroDivisionError).
Proof.
  intros Hr Hfin needed. unfold strategy_performance, strategy_returns.
  pose proof (dropna_finite _ Hfin) as Hdrop.
  assert (Hbench : 1 ≤ length returns →
                   ∃ b, performance_metrics returns = Ok b).
  { intros Hn. destruct (performance_metrics_Ok returns) as (b & Hb & _); [|eauto].
    rewrite Hdrop. by destruct returns; [simpl in Hn; lia|]. }
  unfold needed. case_decide as Hs.
  - destruct (momentum_strategy_columns data lookback returns Hr)
      as (out & strat & Hout & Hret & _ & Hsig & Hstrat & _ & _ & _).
    pose proof Hout as Hout'.
    rewrite (momentum_strategy_unfold _ _ _ Hr) in Hout'.
    injection Hout' as Hout'.
    assert (Hval : strat = zip_with fmul
                     (shift (where_positive (rolling_mean lookback returns)))
                     returns).
    { rewrite <- Hout' in Hstrat. simpl in Hstrat.
      rewrite lookup_insert_eq in Hstrat. by injection Hstrat. }
    assert (Hlen : length (dropna strat) = length returns - 1).
    { apply (strategy_returns_defined
               (where_positive (rolling_mean lookback returns)));
        [| done | | done].
      - unfold rolling_mean. by rewrite where_positive_length, rolling_length.
      - intros i p. unfold where_positive. rewrite list_lookup_fmap.
        intros (m & _ & ->)%fmap_Some.
        destruct (fgt m (Fin 0)); [by right | by left]. }
    rewrite Hout. simpl.
    rewrite (proj2 (getitem_Ok out "Strategy_Return" strat) Hstrat). simpl.
    split.
    + intros Hn.
      destruct (performance_metrics_Ok strat) as (m & Hm & _).
      { intros Hnil. rewrite Hnil in Hlen. simpl in Hlen. lia. }
      destruct (Hbench ltac:(lia)) as (b & Hb).
      rewrite Hm. simpl.
      rewrite (proj2 (getitem_Ok out "Returns" returns) Hret). simpl.
      rewrite Hb. simpl. eauto.
    + intros Hn.
      rewrite performance_metrics_no_observation; [done|].
      destruct (dropna strat); [done | simpl in Hlen; lia].
  - rewrite (proj2 (getitem_Ok data "Returns" returns) Hr). simpl. split.
    + intros Hn. destruct (Hbench Hn) as (b & Hb).
      rewrite Hb. simpl.
      rewrite (proj2 (getitem_Ok data "Returns" returns) Hr). simpl.
      rewrite Hb. simpl. eauto.
    + intros Hn. rewrite performance_metrics_no_observation; [done|].
      rewrite Hdrop. destruct returns; [done | simpl in Hn; lia].
Qed.

End dashboard_facts.

(** ** The properties at the sample inputs *)

Lemma sample_data_well_formed : well_formed (sample_data 66).
Proof. apply (bool_decide_unpack _). by vm_compute. Qed.

Lemma calculate_returns_complete_rows_witness :
  well_formed sample_table ∧
  ∀ c s, columns sample_table !! c = Some s → Forall (λ x, notna x = true) s.
Proof.
  apply (@calculate_returns_complete_rows numpy_run (sample_data 66)).
  - exact sample_data_well_formed.
  - vm_compute. reflexivity.
Defined.

Lemma calculate_returns_short_history_witness :
  ∃ out, @calculate_returns numpy_run example_data = Ok out ∧ index out = [].
Proof.
  eexists. split; [vm_compute; reflexivity|].
  refine (proj1 (@calculate_returns_short_history numpy_run example_data _ _ _)).
  - simpl. lia.
  - vm_compute. reflexivity.
Defined.

Lemma calculate_returns_rows_of_input_witness :
  index sample_table `sublist_of` index (sample_data 66).
Proof.
  refine (proj1 (@calculate_returns_rows_of_input numpy_run (sample_data 66)
                   sample_table _)).
  vm_compute. reflexivity.
Defined.

Lemma peak_non_decreasing_witness :
  ∃ peak, columns sample_table !! "Peak" = Some peak.
Proof.
  destruct (@peak_non_decreasing numpy_run (sample_data 66)
              (sample_price <$> seq 0 66) sample_table)
    as (peak & Hpeak & _);
    [reflexivity | reflexivity | vm_compute; reflexivity |].
  by exists peak.
Defined.

Lemma momentum_strategy_long_or_flat_witness :
  ∃ out strat, momentum_strategy sample_table 2 = Ok out ∧
               columns out !! "Strategy_Return" = Some strat.
Proof.
  destruct (momentum_strategy_long_or_flat sample_table 2 _ eq_refl)
    as (out & _ & _ & strat & Hout & _ & _ & Hstrat & _).
  by exists out, strat.
Defined.

Lemma momentum_strategy_warm_up_witness :
  ∃ out strat, momentum_strategy sample_table 60 = Ok out ∧
               columns out !! "Strategy_Return" = Some strat ∧
               strat !! 1 = Some (Fin 0).
Proof.
  destruct (momentum_strategy_warm_up sample_table 60 _ eq_refl)
    as (out & strat & Hout & Hstrat & Hwarm).
  exists out, strat. do 2 (split; [done|]).
  apply (Hwarm 0 (1 # 4)%Q); [lia | reflexivity].
Defined.

Lemma win_rate_fraction_witness :
  ∃ m w, @performance_metrics numpy_run
           [Fin (1 # 100); Fin (-1 # 100); Fin (3 # 100)] = Ok m ∧
         win_rate m = Fin w ∧ (0 <= w)%Q ∧ (w <= 1)%Q.
Proof.
  destruct (@win_rate_fraction numpy_run
              [Fin (1 # 100); Fin (-1 # 100); Fin (3 # 100)])
    as (m & w & Hm & Hw & _ & H0 & H1); [done|].
  by exists m, w.
Defined.

Lemma max_drawdown_bounds_witness :
  ∃ m d, @performance_metrics numpy_run
           [Fin (1 # 100); Fin (-1 # 100); Fin (3 # 100)] = Ok m ∧
         max_dd m = Fin d ∧ (-1 < d)%Q ∧ (d <= 0)%Q.
Proof.
  apply (@max_drawdown_bounds numpy_run); [done | reflexivity].
Defined.

Lemma rolling_var_within_window_witness :
  ∃ q,
    rolling_var [Fin (1 # 100); Fin (-1 # 100); Fin (3 # 100); Fin (2 # 100)]
                3 (Fin (95 # 100))
    = Ok [NaN; NaN; Fin (-1 # 125); Fin (-7 # 1000)] ∧
    [NaN; NaN; Fin (-1 # 125); Fin (-7 # 1000)] !! 2 = Some (Fin q) ∧
    (-1 # 100 <= q)%Q ∧ (q <= 3 # 100)%Q.
Proof.
  destruct (rolling_var_within_window
              [Fin (1 # 100); Fin (-1 # 100); Fin (3 # 100); Fin (2 # 100)]
              3 (95 # 100) (-1 # 100) (3 # 100)
              [NaN; NaN; Fin (-1 # 125); Fin (-7 # 1000)] 2)
    as (q & Hq & Hlo & Hhi);
    [done | done | vm_compute; reflexivity | lia | lia | simpl; lia | |].
  - intros x Hx. vm_compute in Hx.
    repeat (apply elem_of_cons in Hx as [-> | Hx];
            [eexists; split; [reflexivity|]; split; done|]).
    by apply elem_of_nil in Hx.
  - exists q. split; [vm_compute; reflexivity|]. done.
Defined.

(** The first of two simulated paths is the single path of a run that
    asks for one. *)
Lemma monte_carlo_prefix_witness :
  ∃ paths st' st'',
    @monte_carlo generator_cycle (Fin 0) (Fin (1 # 3)) 2 7%Z = (Ok paths, st') ∧
    length paths = 2 ∧
    @monte_carlo generator_cycle (Fin 0) (Fin (1 # 3)) 1 7%Z
      = (Ok (take 1 paths), st'').
Proof.
  destruct (@monte_carlo generator_cycle (Fin 0) (Fin (1 # 3)) 2 7%Z)
    as [[paths|e] st'] eqn:Hrun; [|vm_compute in Hrun; discriminate].
  destruct (@monte_carlo_prefix generator_cycle (Fin 0) (Fin (1 # 3)) 1 1 7%Z
              paths st' Hrun) as [st'' Hone].
  exists paths, st', st''. split; [done|]. split; [|done].
  vm_compute in Hrun. by injection Hrun as <- <-.
Defined.

Lemma load_data_complete_witness :
  ∃ data, @load_data yahoo_run 10 20 = Ok data ∧
          dom (columns data) = {["Price"; "Rate"]}.
Proof.
  eexists. split; [vm_compute; reflexivity|].
  refine (proj1 (@load_data_complete yahoo_run 10 20 _ _)).
  vm_compute. reflexivity.
Defined.

Lemma load_data_rows_witness :
  ∃ data price, @load_data yahoo_run 10 20 = Ok data ∧
                columns data !! "Price" = Some price.
Proof.
  eexists.
  destruct (@load_data_rows yahoo_run 10 20 _ ltac:(vm_compute; reflexivity))
    as (_ & _ & price & _ & _ & _ & Hprice & _).
  exists price. split; [reflexivity | done].
Defined.

Lemma load_data_then_calculate_returns_witness :
  ∃ data out, @load_data yahoo_run 10 20 = Ok data ∧
              @calculate_returns numpy_run data = Ok out.
Proof.
  eexists.
  destruct (@load_data_then_calculate_returns yahoo_run numpy_run 10 20 _
              ltac:(vm_compute; reflexivity)) as (out & Hout & _).
  exists out. split; [reflexivity | done].
Defined.

Lemma strategy_performance_defined_witness :
  ∃ m b, @strategy_performance numpy_run "Momentum" sample_table 60 = Ok (m, b).
Proof.
  refine (proj1 (@strategy_performance_defined numpy_run "Momentum"
                   sample_table 60 _ eq_refl eq_refl) _).
  simpl. lia.
Defined.
